(** * task-api: the in-memory task repository and the task service

    A shallow embedding of [internal/repository] (the in-memory store),
    [internal/domain] (the task entity and the task service) and
    [pkg/errors], followed by the properties of the specification that
    were checked against it.

    Conventions of the embedding.
    - A [*domain.Task] is an address into a heap of task records.  The
      heap only grows (Go is garbage collected); an address outside the
      heap plays the role of a nil pointer and dereferencing it is a
      run-time panic.
    - Go's [int] is the 64-bit two's-complement integer of the usual
      targets; arithmetic on it wraps around.
    - A [time.Time] is the signed distance, in nanoseconds, from Go's zero
      instant (January 1, year 1, 00:00:00 UTC); the location and the
      monotonic reading play no part in [IsZero], [After] and [Before].
    - The three library calls the code relies on are taken as parameters:
      [uuid.NewString] (the n-th call yields [uuid_NewString n]), the
      iteration order of [range] over a map, and [sort.Slice]. *)

From Stdlib Require Import ZArith Lia.
From stdpp Require Import base option gmap strings pretty list fin_maps
  sorting.

Local Open Scope Z_scope.
Local Open Scope nat_scope.

(** ** pkg/errors *)

Module pkgerrors.

Definition ErrTypeValidation : string := "validation".
Definition ErrTypeNotFound : string := "not_found".

(** [AppError]; the field [Type] is spelled [ErrType] here. *)
Record AppError : Type := mkAppError {
  ErrType : string;
  Message : string
}.

Definition Error (e : AppError) : string := Message e.

Definition NewValidationError (msg : string) : AppError :=
  {| ErrType := ErrTypeValidation; Message := msg |}.

Definition NewNotFoundError (msg : string) : AppError :=
  {| ErrType := ErrTypeNotFound; Message := msg |}.

Definition IsValidation (e : AppError) : bool :=
  String.eqb (ErrType e) ErrTypeValidation.

Definition IsNotFound (e : AppError) : bool :=
  String.eqb (ErrType e) ErrTypeNotFound.

End pkgerrors.
Import pkgerrors.

(** ** internal/domain: the entity *)

Definition TaskStatus : Type := string.

Definition StatusPending : TaskStatus := "PENDING".
Definition StatusInProgress : TaskStatus := "IN_PROGRESS".
Definition StatusDone : TaskStatus := "DONE".

(** [time.Time] and the three methods of it that the service calls. *)
Definition Time : Type := Z.

Definition IsZero (t : Time) : bool := (t =? 0)%Z.
Definition After (t u : Time) : bool := (u <? t)%Z.
Definition Before (t u : Time) : bool := (t <? u)%Z.

Record Task : Type := mkTask {
  ID : string;
  Title : string;
  Description : string;
  Status : TaskStatus;
  DueDate : Time
}.

Definition ErrTitleRequired : string := "title is required".
Definition ErrDueDateRequired : string := "due_date is required".
Definition ErrDueDatePast : string := "due_date must be in the future".
Definition ErrStatusInvalid : string := "invalid status".

(** Field assignments through a pointer, [task.F = v]. *)
Definition set_ID (v : string) (t : Task) : Task :=
  {| ID := v; Title := Title t; Description := Description t;
     Status := Status t; DueDate := DueDate t |}.
Definition set_Title (v : string) (t : Task) : Task :=
  {| ID := ID t; Title := v; Description := Description t;
     Status := Status t; DueDate := DueDate t |}.
Definition set_Description (v : string) (t : Task) : Task :=
  {| ID := ID t; Title := Title t; Description := v;
     Status := Status t; DueDate := DueDate t |}.
Definition set_Status (v : TaskStatus) (t : Task) : Task :=
  {| ID := ID t; Title := Title t; Description := Description t;
     Status := v; DueDate := DueDate t |}.
Definition set_DueDate (v : Time) (t : Task) : Task :=
  {| ID := ID t; Title := Title t; Description := Description t;
     Status := Status t; DueDate := v |}.

(** The service's input records.  Go's nil-able pointer fields are
    options. *)
Record CreateTaskInput : Type := mkCreateTaskInput {
  cti_Title : string;
  cti_Description : string;
  cti_Status : option TaskStatus;
  cti_DueDate : Time
}.

Record UpdateTaskInput : Type := mkUpdateTaskInput {
  uti_Title : option string;
  uti_Description : option string;
  uti_Status : option TaskStatus;
  uti_DueDate : option Time
}.

Record TaskFilter : Type := mkTaskFilter {
  tf_Status : option TaskStatus;
  tf_Page : Z;
  tf_PageSize : Z
}.

Definition isValidStatus (s : TaskStatus) : bool :=
  String.eqb s StatusPending || String.eqb s StatusInProgress
  || String.eqb s StatusDone.

(** ** Go's [int] *)

Definition int_min : Z := (- 2 ^ 63)%Z.
Definition int_max : Z := (2 ^ 63 - 1)%Z.
Definition in_int (z : Z) : Prop := (int_min <= z <= int_max)%Z.

Definition int_wrap (z : Z) : Z := ((z + 2 ^ 63) mod 2 ^ 64 - 2 ^ 63)%Z.
Definition int_add (a b : Z) : Z := int_wrap (a + b).
Definition int_sub (a b : Z) : Z := int_wrap (a - b).
Definition int_mul (a b : Z) : Z := int_wrap (a * b).

(** The slice expression [s[lo:hi]]: it panics unless
    [0 <= lo <= hi <= cap(s)].  Every slice sliced below has been clamped
    to its length by the caller, so the bound used is the length. *)
Definition slice {A : Type} (s : list A) (lo hi : Z) : option (list A) :=
  if ((0 <=? lo) && (lo <=? hi) && (hi <=? Z.of_nat (length s)))%Z
  then Some (take (Z.to_nat (hi - lo)) (drop (Z.to_nat lo) s))
  else None.

(** ** The program state and its monad *)

(** A [*Task]: the index of a cell of the heap. *)
Abbreviation ptr := nat (only parsing).

Record World : Type := mkWorld {
  heap : list Task;            (* every Task ever allocated *)
  tasks : gmap string ptr;     (* InMemoryTaskRepository.tasks *)
  uuid_calls : nat             (* calls made to uuid.NewString *)
}.

(** The state right after [NewInMemoryTaskRepository]: an empty map,
    nothing allocated, no identifier generated. *)
Definition empty_world : World :=
  {| heap := []; tasks := ∅; uuid_calls := 0 |}.

(** What a call produces: a value, an error value, or a panic. *)
Inductive result (A : Type) : Type :=
| Ok (a : A)
| Err (e : AppError)
| Panic.
Arguments Ok {A} a.
Arguments Err {A} e.
Arguments Panic {A}.

Definition M (A : Type) : Type := World → result A * World.

Definition ret {A : Type} (a : A) : M A := λ w, (Ok a, w).
Definition fail {A : Type} (e : AppError) : M A := λ w, (Err e, w).
Definition panic {A : Type} : M A := λ w, (Panic, w).
Definition bind {A B : Type} (m : M A) (k : A → M B) : M B :=
  λ w, match m w with
       | (Ok a, w') => k a w'
       | (Err e, w') => (Err e, w')
       | (Panic, w') => (Panic, w')
       end.

Notation "x <~ m ;; k" := (bind m (λ x, k))
  (at level 100, m at next level, right associativity).

(** [&Task{...}] and [copy := *task; &copy]: a new cell at the end of the
    heap. *)
Definition new_task (t : Task) : M ptr :=
  λ w, (Ok (length (heap w)),
        {| heap := heap w ++ [t]; tasks := tasks w;
           uuid_calls := uuid_calls w |}).

(** [*p]. *)
Definition load (p : ptr) : M Task :=
  λ w, match heap w !! p with
       | Some t => (Ok t, w)
       | None => (Panic, w)
       end.

(** [p.F = v], with [f] the field assignment. *)
Definition poke (p : ptr) (f : Task → Task) : M unit :=
  λ w, match heap w !! p with
       | Some t => (Ok (), {| heap := <[p := f t]> (heap w);
                              tasks := tasks w;
                              uuid_calls := uuid_calls w |})
       | None => (Panic, w)
       end.

(** The record stored under an identifier, read through the map. *)
Definition stored (w : World) (id : string) : option Task :=
  p ← tasks w !! id; heap w !! p.

(** The partial merge as the specification words it: a field that is
    supplied replaces the stored one, a field that is not supplied keeps
    the stored value, and the identifier is kept. *)
Definition merged (t : Task) (input : UpdateTaskInput) : Task :=
  {| ID := ID t;
     Title := default (Title t) (uti_Title input);
     Description := default (Description t) (uti_Description input);
     Status := default (Status t) (uti_Status input);
     DueDate := default (DueDate t) (uti_DueDate input) |}.

(** The validation rules of the specification for a partial update: a
    supplied title is not empty, a supplied status is one of the three, a
    supplied due date is not zero and lies strictly after [now]. *)
Definition update_valid (input : UpdateTaskInput) (now : Time) : Prop :=
  uti_Title input ≠ Some "" ∧
  (∀ s, uti_Status input = Some s → isValidStatus s = true) ∧
  (∀ d, uti_DueDate input = Some d → d ≠ 0%Z ∧ (now < d)%Z).

(** The status filter of [ListTasks]: with a status, the loop that keeps
    the tasks of that status, in order; without one, the slice as it is. *)
Definition retain (status : option TaskStatus) (tasks0 : list Task)
  : list Task :=
  match status with
  | Some s => List.filter (λ t, String.eqb (Status t) s) tasks0
  | None => tasks0
  end.

(** The comparison [ListTasks] passes to [sort.Slice], on elements:
    [tasks[i].DueDate.Before(tasks[j].DueDate)]. *)
Definition less_DueDate (a b : Task) : bool :=
  Before (DueDate a) (DueDate b).

(** [page] and [size] after the defaults of [ListTasks]. *)
Definition page_of (filter : TaskFilter) : Z :=
  if (tf_Page filter <=? 0)%Z then 1%Z else tf_Page filter.
Definition size_of (filter : TaskFilter) : Z :=
  if (tf_PageSize filter <=? 0)%Z then 10%Z else tf_PageSize filter.

(** Ascending by due date: no task is due later than a task after it. *)
Definition ascending (l : list Task) : Prop :=
  StronglySorted (λ a b, (DueDate a <= DueDate b)%Z) l.

(** Stability of [out] with respect to [input]: two tasks of [out] with
    equal due dates stand in [input] in the same order. *)
Definition ties_keep_order (input out : list Task) : Prop :=
  ∀ i j a b,
    i < j → out !! i = Some a → out !! j = Some b →
    DueDate a = DueDate b →
    ∃ i' j', i' < j' ∧ input !! i' = Some a ∧ input !! j' = Some b.

(** The calls a client of the service can make. *)
Inductive ServiceCall : Type :=
| CallCreateTask (input : CreateTaskInput) (now : Time)
| CallGetTask (id : string)
| CallUpdateTask (id : string) (input : UpdateTaskInput) (now : Time)
| CallDeleteTask (id : string)
| CallListTasks (filter : TaskFilter).

(** The invariant of the data model on one record. *)
Definition valid_task (t : Task) : Prop :=
  ID t ≠ "" ∧ Title t ≠ "" ∧
  (Status t = "PENDING" ∨ Status t = "IN_PROGRESS" ∨ Status t = "DONE") ∧
  DueDate t ≠ 0%Z.

(** Every key of the store leads to a record that carries that key as
    its identifier and satisfies the invariant. *)
Definition store_ok (w : World) : Prop :=
  ∀ id p, tasks w !! id = Some p →
          ∃ t, heap w !! p = Some t ∧ ID t = id ∧ valid_task t.

(** Stable insertion sort by [less]: the behaviour the specification
    describes for the ordering step. *)
Fixpoint insert_stable {A : Type} (less : A → A → bool) (x : A)
    (l : list A) : list A :=
  match l with
  | [] => [x]
  | y :: l' => if less y x then y :: insert_stable less x l' else x :: l
  end.

Definition sort_stable {A : Type} (less : A → A → bool) (l : list A)
  : list A := foldr (insert_stable less) [] l.



(** [less] is a strict weak ordering, what [sort.Slice] asks of it. *)
Definition strict_weak {A : Type} (less : A → A → bool) : Prop :=
  (∀ a, less a a = false) ∧
  (∀ a b c, less a b = true → less b c = true → less a c = true) ∧
  (∀ a b c, less a b = false → less b c = false → less a c = false).

(** No element is followed, anywhere later, by a smaller one. *)
Definition sorted_by {A : Type} (less : A → A → bool) (l : list A) : Prop :=
  StronglySorted (λ a b, less b a = false) l.

(** What the documentation of [sort.Slice] promises: the result holds the
    same elements and is ordered by [less]; nothing about ties. *)
Definition sort_Slice_contract
    (sort : list Task → (Task → Task → bool) → list Task) : Prop :=
  ∀ l less, sort l less ≡ₚ l ∧ (strict_weak less → sorted_by less (sort l less)).

(** ** internal/transport/http: requests and replies *)

(** The JSON bodies after [c.BodyParser]: a field absent from the body of
    a create request is the empty string, a field absent from the body of
    an update request is nil. *)
Record createTaskRequest : Type := mkCreateTaskRequest {
  ctr_Title : string;
  ctr_Description : string;
  ctr_Status : string;
  ctr_DueDate : string
}.

Record updateTaskRequest : Type := mkUpdateTaskRequest {
  utr_Title : option string;
  utr_Description : option string;
  utr_Status : option string;
  utr_DueDate : option string
}.

Definition StatusOK : Z := 200.
Definition StatusCreated : Z := 201.
Definition StatusNoContent : Z := 204.
Definition StatusBadRequest : Z := 400.
Definition StatusNotFound : Z := 404.
Definition StatusInternalServerError : Z := 500.

(** What a handler ends with: [c.Status(code).JSON(task)] (the body is
    the contents of the task at that moment), [c.JSON(tasks)],
    [c.SendStatus(code)], or [return fiber.NewError(code, msg)], which the
    error handler of the application sends as [code] with the body
    [{"error": msg}]. *)
Inductive Reply : Type :=
| JSON_task (code : Z) (t : Task)
| JSON_tasks (code : Z) (l : list Task)
| SendStatus (code : Z)
| fiber_NewError (code : Z) (msg : string).


(** [c.QueryInt(key, defaultValue)]: [raw] is the integer the parameter
    parses to, if it is present and a number. *)
Definition QueryInt (raw : option Z) (defaultValue : Z) : Z :=
  default defaultValue raw.


(** Go's [value, err := f()]: the error is a value the caller inspects;
    a panic still unwinds. *)
Definition try {A : Type} (m : M A) : M (A + AppError) :=
  λ w, match m w with
       | (Ok a, w') => (Ok (inl a), w')
       | (Err e, w') => (Ok (inr e), w')
       | (Panic, w') => (Panic, w')
       end.

(** The first check of [UpdateTask] that an input fails, in the order of
    the code: title, then status, then due date (zero, then not after
    [now]); the description is not checked. *)
Definition title_error (input : UpdateTaskInput) : option string :=
  match uti_Title input with
  | Some v => if String.eqb v "" then Some ErrTitleRequired else None
  | None => None
  end.

Definition status_error (input : UpdateTaskInput) : option string :=
  match uti_Status input with
  | Some v => if isValidStatus v then None else Some ErrStatusInvalid
  | None => None
  end.

Definition due_error (input : UpdateTaskInput) (now : Time)
  : option string :=
  match uti_DueDate input with
  | Some v => if IsZero v then Some ErrDueDateRequired
              else if After v now then None else Some ErrDueDatePast
  | None => None
  end.

Definition update_error (input : UpdateTaskInput) (now : Time)
  : option string :=
  match title_error input with
  | Some msg => Some msg
  | None => match status_error input with
            | Some msg => Some msg
            | None => due_error input now
            end
  end.

(** The first check of [CreateTask] that an input fails, in the order of
    the code: title, due date (zero, then not after [now]), status. *)
Definition create_error (input : CreateTaskInput) (now : Time)
  : option string :=
  if String.eqb (cti_Title input) "" then Some ErrTitleRequired
  else if IsZero (cti_DueDate input) then Some ErrDueDateRequired
  else if After (cti_DueDate input) now then
    match cti_Status input with
    | Some s => if isValidStatus s then None else Some ErrStatusInvalid
    | None => None
    end
  else Some ErrDueDatePast.

(** The task [CreateTask] builds from an acceptable input, once [Create]
    has written the identifier into it. *)
Definition created (id : string) (input : CreateTaskInput) : Task :=
  {| ID := id; Title := cti_Title input;
     Description := cti_Description input;
     Status := default StatusPending (cti_Status input);
     DueDate := cti_DueDate input |}.

(** The input the handler of POST /tasks builds from a decoded body and
    a parsed due date, and the one the handler of PUT /tasks/:id builds. *)
Definition create_input (req : createTaskRequest) (due : Time)
  : CreateTaskInput :=
  {| cti_Title := ctr_Title req;
     cti_Description := ctr_Description req;
     cti_Status := if negb (String.eqb (ctr_Status req) "")
                   then Some (ctr_Status req) else None;
     cti_DueDate := due |}.

Definition update_input (req : updateTaskRequest) (duePtr : option Time)
  : UpdateTaskInput :=
  {| uti_Title := utr_Title req;
     uti_Description := utr_Description req;
     uti_Status := utr_Status req;
     uti_DueDate := duePtr |}.

(** The four messages of the service. *)
Definition validation_messages : list string :=
  [ErrTitleRequired; ErrDueDateRequired; ErrDueDatePast; ErrStatusInvalid].

(** ** Concrete data for the examples *)

(** A generator that never repeats itself: "t0", "t1", "t2", ... *)
Definition demo_uuid (n : nat) : string := "t" +:+ pretty n.

(** A task object as a caller builds it before [Create]. *)
Definition report : Task :=
  {| ID := ""; Title := "Original"; Description := "";
     Status := "PENDING"; DueDate := 86400%Z |}.

(** The caller has allocated [report]; the repository is new. *)
Definition report_world : World :=
  {| heap := [report]; tasks := ∅; uuid_calls := 0 |}.

(** Thirteen tasks, all due at the same time except the tenth. *)
Definition thirteen_tasks : list Task :=
  (λ i, {| ID := demo_uuid i; Title := "task"; Description := "";
           Status := "PENDING";
           DueDate := if i =? 9 then 2%Z else 1%Z |}) <$> seq 0 13.

(** [report] once stored under the identifier "t0". *)
Definition filed : Task := set_ID "t0" report.

Definition filed_world : World :=
  {| heap := [filed]; tasks := {[ "t0" := 0 ]}; uuid_calls := 1 |}.

(** The caller holds two task objects. *)
Definition two_tasks_world : World :=
  {| heap := [report; set_Title "Second" report]; tasks := ∅;
     uuid_calls := 0 |}.

Definition untitled_input : CreateTaskInput :=
  {| cti_Title := ""; cti_Description := ""; cti_Status := None;
     cti_DueDate := 86400%Z |}.

Definition report_input : CreateTaskInput :=
  {| cti_Title := "Report"; cti_Description := ""; cti_Status := None;
     cti_DueDate := 86400%Z |}.

(** A new title together with a status that does not exist. *)
Definition bogus_update : UpdateTaskInput :=
  {| uti_Title := Some "New"; uti_Description := None;
     uti_Status := Some "BOGUS"; uti_DueDate := None |}.

Definition progress_update : UpdateTaskInput :=
  {| uti_Title := None; uti_Description := Some "";
     uti_Status := Some "IN_PROGRESS"; uti_DueDate := None |}.

Definition demo_calls : list ServiceCall :=
  [CallCreateTask report_input 0%Z;
   CallUpdateTask "t0" progress_update 0%Z;
   CallCreateTask report_input 10%Z;
   CallDeleteTask "t1";
   CallUpdateTask "t0" bogus_update 0%Z].

Section TaskApi.

(** [uuid.NewString()]: the string returned by the n-th call. *)
Variable uuid_NewString : nat → string.

(** [for _, t := range r.tasks]: the order in which the entries of the
    map are visited. *)
Variable range : gmap string ptr → list (string * ptr).

(** [sort.Slice(x, less)], with [less] on elements. *)
Variable sort_Slice : list Task → (Task → Task → bool) → list Task.

(** What is taken for granted of [uuid.NewString]: it never returns the
    same string twice. *)
Definition uuid_never_repeats : Prop :=
  ∀ m n, uuid_NewString m = uuid_NewString n → m = n.

(** And it never returns the empty string. *)
Definition uuid_never_empty : Prop := ∀ n, uuid_NewString n ≠ "".

(** What is taken for granted of [range]: it visits every entry of the
    map once, in some order. *)
Definition range_contract : Prop := ∀ m, range m ≡ₚ map_to_list m.

(** *** internal/repository: InMemoryTaskRepository *)

Definition Create (task : ptr) : M unit :=
  λ w,
    let id := uuid_NewString (uuid_calls w) in
    match heap w !! task with
    | Some t =>
        (Ok (), {| heap := <[task := set_ID id t]> (heap w);
                   tasks := <[id := task]> (tasks w);
                   uuid_calls := S (uuid_calls w) |})
    | None =>
        (Panic, {| heap := heap w; tasks := tasks w;
                   uuid_calls := S (uuid_calls w) |})
    end.

Definition GetByID (id : string) : M ptr :=
  λ w,
    match tasks w !! id with
    | None => fail (NewNotFoundError "task not found") w
    | Some task => (t <~ load task ;; new_task t) w
    end.

Definition Update (task : ptr) : M unit :=
  t <~ load task ;;
  λ w,
    match tasks w !! ID t with
    | None => fail (NewNotFoundError "task not found") w
    | Some _ =>
        (copy <~ new_task t ;;
         λ w', (Ok (), {| heap := heap w';
                          tasks := <[ID t := copy]> (tasks w');
                          uuid_calls := uuid_calls w' |})) w
    end.

Definition Delete (id : string) : M unit :=
  λ w,
    match tasks w !! id with
    | None => fail (NewNotFoundError "task not found") w
    | Some _ => (Ok (), {| heap := heap w; tasks := delete id (tasks w);
                           uuid_calls := uuid_calls w |})
    end.

(** [ListAll] hands out one new copy per entry.  Nothing else ever
    refers to those copies, so the slice of pointers is represented by
    the contents of the copies, in the order of the iteration. *)
Definition ListAll : M (list Task) :=
  λ w,
    match mapM (λ kp : string * ptr, heap w !! kp.2) (range (tasks w)) with
    | Some out => (Ok out, w)
    | None => (Panic, w)
    end.

(** *** internal/domain: taskService *)

Definition CreateTask (input : CreateTaskInput) (now : Time) : M ptr :=
  if String.eqb (cti_Title input) "" then
    fail (NewValidationError ErrTitleRequired)
  else if IsZero (cti_DueDate input) then
    fail (NewValidationError ErrDueDateRequired)
  else if negb (After (cti_DueDate input) now) then
    fail (NewValidationError ErrDueDatePast)
  else
    status <~ match cti_Status input with
              | Some s => if negb (isValidStatus s)
                          then fail (NewValidationError ErrStatusInvalid)
                          else ret s
              | None => ret StatusPending
              end ;;
    task <~ new_task {| ID := ""; Title := cti_Title input;
                        Description := cti_Description input;
                        Status := status;
                        DueDate := cti_DueDate input |} ;;
    _ <~ Create task ;;
    ret task.

Definition GetTask (id : string) : M ptr :=
  task <~ GetByID id ;;
  ret task.

Definition UpdateTask (id : string) (input : UpdateTaskInput) (now : Time)
  : M ptr :=
  task <~ GetByID id ;;
  _ <~ match uti_Title input with
       | Some v => if String.eqb v ""
                   then fail (NewValidationError ErrTitleRequired)
                   else poke task (set_Title v)
       | None => ret ()
       end ;;
  _ <~ match uti_Description input with
       | Some v => poke task (set_Description v)
       | None => ret ()
       end ;;
  _ <~ match uti_Status input with
       | Some v => if negb (isValidStatus v)
                   then fail (NewValidationError ErrStatusInvalid)
                   else poke task (set_Status v)
       | None => ret ()
       end ;;
  _ <~ match uti_DueDate input with
       | Some v => if IsZero v
                   then fail (NewValidationError ErrDueDateRequired)
                   else if negb (After v now)
                   then fail (NewValidationError ErrDueDatePast)
                   else poke task (set_DueDate v)
       | None => ret ()
       end ;;
  _ <~ Update task ;;
  ret task.

Definition DeleteTask (id : string) : M unit := Delete id.

(** The body of [ListTasks] after the call to [ListAll]: filter, sort,
    paginate.  [None] is the panic of the final slice expression. *)
Definition ListTasks_of (tasks0 : list Task) (filter : TaskFilter)
  : option (list Task) :=
  let tasks1 := retain (tf_Status filter) tasks0 in
  let tasks2 := sort_Slice tasks1 less_DueDate in
  let page := if (tf_Page filter <=? 0)%Z then 1%Z else tf_Page filter in
  let size :=
    if (tf_PageSize filter <=? 0)%Z then 10%Z else tf_PageSize filter in
  let start := int_mul (int_sub page 1) size in
  if (start >=? Z.of_nat (length tasks2))%Z then Some []
  else
    let end_ := int_add start size in
    let end_ :=
      if (end_ >? Z.of_nat (length tasks2))%Z
      then Z.of_nat (length tasks2) else end_ in
    slice tasks2 start end_.

Definition ListTasks (filter : TaskFilter) : M (list Task) :=
  tasks0 <~ ListAll ;;
  λ w, match ListTasks_of tasks0 filter with
       | Some page => (Ok page, w)
       | None => (Panic, w)
       end.

(** *** Runs *)

(** A run of [Create] calls, one per task object of [ps], from [w]: the
    identifier each object carries right after its call, and the final
    state.  The run stops at the first call that does not return. *)
Fixpoint Create_all (ps : list ptr) (w : World) : list string * World :=
  match ps with
  | [] => ([], w)
  | task :: ps' =>
      match Create task w with
      | (Ok _, w1) =>
          match heap w1 !! task with
          | Some t1 =>
              let '(ids, w2) := Create_all ps' w1 in (ID t1 :: ids, w2)
          | None => ([], w1)
          end
      | (_, w1) => ([], w1)
      end
  end.

(** What [GetByID] hands out for [id]: the contents of the copy. *)
Definition GetByID_value (id : string) (w : World) : option Task :=
  match GetByID id w with
  | (Ok copy, w') => heap w' !! copy
  | _ => None
  end.

(** The isolation the specification asks of [Create]: an assignment to
    the object that was passed to [Create], made after [Create] has
    returned, does not change what [GetByID] hands out for the
    identifier of that object. *)
Definition Create_isolates : Prop :=
  ∀ w task t f w1 w2,
    heap w !! task = Some t →
    Create task w = (Ok (), w1) →
    poke task f w1 = (Ok (), w2) →
    GetByID_value (uuid_NewString (uuid_calls w)) w2
    = GetByID_value (uuid_NewString (uuid_calls w)) w1.

(** The ordering the specification asks of [ListTasks]: ascending by
    due date, ties in the order in which the store yielded them. *)
Definition ListTasks_stable : Prop :=
  ∀ tasks0 filter out,
    ListTasks_of tasks0 filter = Some out →
    ascending out ∧ ties_keep_order tasks0 out.

(** The state a call to the service leaves behind. *)
Definition after_call (c : ServiceCall) (w : World) : World :=
  match c with
  | CallCreateTask input now => (CreateTask input now w).2
  | CallGetTask id => (GetTask id w).2
  | CallUpdateTask id input now => (UpdateTask id input now w).2
  | CallDeleteTask id => (DeleteTask id w).2
  | CallListTasks filter => (ListTasks filter w).2
  end.

Definition after_calls (cs : list ServiceCall) (w : World) : World :=
  foldl (λ w c, after_call c w) w cs.

(** ** Properties *)

(** Running the monad's plumbing. *)
Ltac run_M :=
  unfold GetTask, DeleteTask, GetByID, Update, Delete, Create,
         bind, ret, fail, panic, load, new_task, poke in *;
  simpl in *.

Lemma lookup_new_cell (h : list Task) (t : Task) :
  (h ++ [t]) !! length h = Some t.
Proof. by rewrite lookup_app_r, Nat.sub_diag. Qed.

Lemma lookup_old_cell (h : list Task) (t u : Task) (p : ptr) :
  h !! p = Some u → (h ++ [t]) !! p = Some u.
Proof. intros Hp. by rewrite lookup_app_l by (by eapply lookup_lt_Some). Qed.

(** C9. Round trip through the repository: once [Create] has returned
    for a task object holding [t], [GetByID] at the identifier written
    into that object succeeds and yields a copy whose title,
    description, status and due date are those of [t] and whose
    identifier is the one just generated. *)
Theorem Create_GetByID_roundtrip (w : World) (task : ptr) (t : Task) :
  heap w !! task = Some t →
  ∃ w1 t1 copy w2 got,
    Create task w = (Ok (), w1) ∧
    heap w1 !! task = Some t1 ∧
    ID t1 = uuid_NewString (uuid_calls w) ∧
    GetByID (ID t1) w1 = (Ok copy, w2) ∧
    heap w2 !! copy = Some got ∧
    ID got = ID t1 ∧
    Title got = Title t ∧
    Description got = Description t ∧
    Status got = Status t ∧
    DueDate got = DueDate t.
Proof.
  intros Ht.
  assert (Hlt : task < length (heap w)) by (by eapply lookup_lt_Some).
  set (id := uuid_NewString (uuid_calls w)).
  eexists _, (set_ID id t), _, _, (set_ID id t).
  split; [by run_M; rewrite Ht|].
  run_M.
  rewrite list_lookup_insert_eq by done.
  rewrite lookup_insert_eq. simpl.
  rewrite list_lookup_insert_eq by done.
  repeat split; try done.
  apply lookup_new_cell.
Qed.

(** C7. An identifier that is not a key of the store: [GetByID],
    [Update] (of a task carrying that identifier) and [Delete] each
    return the not-found error and leave the state alone, and
    [GetTask], [UpdateTask] (whatever its input) and [DeleteTask] return
    that very error. *)
Theorem missing_id_NotFound (w : World) (id : string) :
  tasks w !! id = None →
  let nf := NewNotFoundError "task not found" in
  IsNotFound nf = true ∧ IsValidation nf = false ∧
  GetByID id w = (Err nf, w) ∧
  (∀ task t, heap w !! task = Some t → ID t = id →
             Update task w = (Err nf, w)) ∧
  Delete id w = (Err nf, w) ∧
  GetTask id w = (Err nf, w) ∧
  (∀ input now, UpdateTask id input now w = (Err nf, w)) ∧
  DeleteTask id w = (Err nf, w).
Proof.
  intros Hid nf. repeat split; try done.
  - run_M. by rewrite Hid.
  - intros task t Ht <-. run_M. by rewrite Ht, Hid.
  - run_M. by rewrite Hid.
  - run_M. by rewrite Hid.
  - intros input now. unfold UpdateTask. run_M. by rewrite Hid.
  - run_M. by rewrite Hid.
Qed.

Lemma isValidStatus_true (s : TaskStatus) :
  isValidStatus s = true ↔
  s = "PENDING" ∨ s = "IN_PROGRESS" ∨ s = "DONE".
Proof.
  unfold isValidStatus, StatusPending, StatusInProgress, StatusDone.
  rewrite !orb_true_iff, !String.eqb_eq. tauto.
Qed.

Lemma isValidStatus_false (s : TaskStatus) :
  isValidStatus s = false ↔
  s ≠ "PENDING" ∧ s ≠ "IN_PROGRESS" ∧ s ≠ "DONE".
Proof.
  unfold isValidStatus, StatusPending, StatusInProgress, StatusDone.
  rewrite !orb_false_iff, !String.eqb_neq. tauto.
Qed.

(** C4. [CreateTask] checks, in this order: an empty title gives the
    validation error "title is required"; else a zero due date gives
    "due_date is required"; else a due date that is not strictly after
    the current time gives "due_date must be in the future"; else a
    supplied status outside PENDING, IN_PROGRESS, DONE gives "invalid
    status"; else the call succeeds and the task it stores carries the
    supplied status, or PENDING when none was supplied.  A failed call
    leaves the state as it was. *)
Theorem CreateTask_validation (w : World) (input : CreateTaskInput)
    (now : Time) :
  let validation (msg : string) : result ptr * World :=
    (Err {| ErrType := "validation"; Message := msg |}, w) in
  (cti_Title input = "" →
   CreateTask input now w = validation "title is required") ∧
  (cti_Title input ≠ "" → cti_DueDate input = 0%Z →
   CreateTask input now w = validation "due_date is required") ∧
  (cti_Title input ≠ "" → cti_DueDate input ≠ 0%Z →
   ¬ (now < cti_DueDate input)%Z →
   CreateTask input now w = validation "due_date must be in the future") ∧
  (cti_Title input ≠ "" → cti_DueDate input ≠ 0%Z →
   (now < cti_DueDate input)%Z →
   ∀ s, cti_Status input = Some s →
        s ≠ "PENDING" → s ≠ "IN_PROGRESS" → s ≠ "DONE" →
        CreateTask input now w = validation "invalid status") ∧
  (cti_Title input ≠ "" → cti_DueDate input ≠ 0%Z →
   (now < cti_DueDate input)%Z →
   ∀ status,
     cti_Status input = None ∧ status = "PENDING" ∨
     cti_Status input = Some status ∧
       (status = "PENDING" ∨ status = "IN_PROGRESS" ∨ status = "DONE") →
     ∃ task w',
       CreateTask input now w = (Ok task, w') ∧
       let created :=
         {| ID := uuid_NewString (uuid_calls w);
            Title := cti_Title input;
            Description := cti_Description input;
            Status := status;
            DueDate := cti_DueDate input |} in
       heap w' !! task = Some created ∧
       stored w' (uuid_NewString (uuid_calls w)) = Some created).
Proof.
  intros validation. unfold validation, CreateTask, IsZero, After.
  repeat split.
  - intros ->. done.
  - intros Ht Hd. apply String.eqb_neq in Ht. by rewrite Ht, Hd.
  - intros Ht Hd Hn. apply String.eqb_neq in Ht. rewrite Ht.
    destruct (Z.eqb_spec (cti_DueDate input) 0); [done|].
    destruct (Z.ltb_spec now (cti_DueDate input)); [lia|done].
  - intros Ht Hd Hn s Hs H1 H2 H3. apply String.eqb_neq in Ht. rewrite Ht.
    destruct (Z.eqb_spec (cti_DueDate input) 0); [done|].
    destruct (Z.ltb_spec now (cti_DueDate input)); [|lia].
    simpl. rewrite Hs.
    assert (isValidStatus s = false) as Hv by (by apply isValidStatus_false).
    unfold bind, fail. by rewrite Hv.
  - intros Ht Hd Hn status Hst. apply String.eqb_neq in Ht. rewrite Ht.
    destruct (Z.eqb_spec (cti_DueDate input) 0); [done|].
    destruct (Z.ltb_spec now (cti_DueDate input)); [|lia].
    simpl.
    assert (match cti_Status input with
            | Some s => if negb (isValidStatus s)
                        then fail (NewValidationError ErrStatusInvalid)
                        else ret s
            | None => ret StatusPending
            end = ret status) as ->.
    { destruct Hst as [[-> ->]|[-> Hv]]; [done|].
      apply isValidStatus_true in Hv. by rewrite Hv. }
    eexists _, _. split; [run_M; by rewrite lookup_new_cell|].
    unfold stored. simpl. rewrite lookup_insert_eq. simpl.
    rewrite !list_lookup_insert_eq by (rewrite length_app; simpl; lia).
    by split.
Qed.

(** *** Identifiers *)

Lemma Create_valid_ptr (w : World) (task : ptr) (t : Task) :
  heap w !! task = Some t →
  Create task w
  = (Ok (), {| heap := <[task := set_ID (uuid_NewString (uuid_calls w)) t]>
                         (heap w);
               tasks := <[uuid_NewString (uuid_calls w) := task]> (tasks w);
               uuid_calls := S (uuid_calls w) |}).
Proof. intros Ht. unfold Create. by rewrite Ht. Qed.

Lemma Create_all_run (ps : list ptr) (w : World) :
  (∀ task, task ∈ ps → task < length (heap w)) →
  ∃ w',
    Create_all ps w
    = (uuid_NewString <$> seq (uuid_calls w) (length ps), w') ∧
    length (heap w') = length (heap w) ∧
    (∀ id, (∀ i, i < length ps → id ≠ uuid_NewString (uuid_calls w + i)) →
           tasks w' !! id = tasks w !! id) ∧
    (uuid_never_repeats →
     ∀ i task, ps !! i = Some task →
               tasks w' !! uuid_NewString (uuid_calls w + i) = Some task).
Proof.
  revert w. induction ps as [|task ps IH]; intros w Hps.
  { exists w. repeat split; try done. }
  assert (Htask : task < length (heap w)) by (apply Hps; left).
  destruct (lookup_lt_is_Some_2 _ _ Htask) as [t Ht].
  cbn [Create_all]. rewrite (Create_valid_ptr w task t Ht).
  cbn [heap]. rewrite list_lookup_insert_eq by done.
  set (w1 := {| heap := <[task:=_]> (heap w); tasks := _;
                uuid_calls := _ |}).
  destruct (IH w1) as (w' & Hrun & Hlen & Hframe & Hkeys).
  { intros q Hq. unfold w1. cbn [heap]. rewrite length_insert.
    apply Hps. by right. }
  exists w'. rewrite Hrun. cbn [set_ID ID length seq fmap list_fmap].
  unfold w1 in *. cbn [heap tasks uuid_calls] in *.
  rewrite length_insert in Hlen.
  split; [done|]. split; [done|]. split.
  - intros id Hid. rewrite Hframe.
    + apply lookup_insert_ne. specialize (Hid 0 ltac:(lia)).
      rewrite Nat.add_0_r in Hid. done.
    + intros i Hi. specialize (Hid (S i) ltac:(lia)).
      by rewrite Nat.add_succ_r in Hid.
  - intros Hinj [|i] q Hq; cbn in Hq.
    + injection Hq as ->. rewrite Nat.add_0_r, Hframe.
      * apply lookup_insert_eq.
      * intros i _ Heq. apply Hinj in Heq. lia.
    + rewrite Nat.add_succ_r. by apply (Hkeys Hinj i q).
Qed.

(** C6. Repository [Create] returns without error for every task
    object, writes the newly generated identifier over whatever the
    object carried and stores the object under it.  Over a run of
    [Create] calls the identifiers handed out are the successive
    results of [uuid.NewString], whatever the objects carried; provided
    [uuid.NewString] never repeats itself they are pairwise distinct,
    none of them was handed out before the run, and at the end each is
    a key of the store leading to its object. *)
Theorem Create_identifiers_distinct (ps : list ptr) (w : World) :
  uuid_never_repeats →
  (∀ task, task ∈ ps → is_Some (heap w !! task)) →
  (∀ task t,
     heap w !! task = Some t →
     ∃ w1,
       let id := uuid_NewString (uuid_calls w) in
       Create task w = (Ok (), w1) ∧
       heap w1 !! task = Some (set_ID id t) ∧
       tasks w1 !! id = Some task) ∧
  ∃ ids w',
    Create_all ps w = (ids, w') ∧
    length ids = length ps ∧
    ids = uuid_NewString <$> seq (uuid_calls w) (length ps) ∧
    NoDup ids ∧
    (∀ k, k < uuid_calls w → uuid_NewString k ∉ ids) ∧
    (∀ i task, ps !! i = Some task →
               ∃ id, ids !! i = Some id ∧ tasks w' !! id = Some task).
Proof.
  intros Hinj Hps. split.
  { intros task t Ht. eexists. cbn zeta.
    rewrite (Create_valid_ptr w task t Ht). split; [done|].
    cbn [heap tasks]. split; [|apply lookup_insert_eq].
    apply list_lookup_insert_eq. by eapply lookup_lt_Some. }
  destruct (Create_all_run ps w) as (w' & Hrun & _ & _ & Hkeys).
  { intros task Hin. apply lookup_lt_is_Some_1. by apply Hps. }
  exists (uuid_NewString <$> seq (uuid_calls w) (length ps)), w'.
  assert (Inj (=) (=) uuid_NewString) by exact Hinj.
  repeat split; try done.
  - by rewrite length_fmap, length_seq.
  - apply NoDup_fmap_2; [done|apply NoDup_seq].
  - intros k Hk (j & Heq & Hj)%list_elem_of_fmap.
    apply Hinj in Heq as ->. apply elem_of_seq in Hj. lia.
  - intros i task Hi. exists (uuid_NewString (uuid_calls w + i)). split.
    + rewrite list_lookup_fmap, lookup_seq_lt; [done|].
      by eapply lookup_lt_Some.
    + by apply Hkeys.
Qed.

(** *** Aliasing between the caller and the store *)

Lemma poke_lookup (w w' : World) (p q : ptr) (f : Task → Task) :
  poke p f w = (Ok (), w') →
  tasks w' = tasks w ∧ uuid_calls w' = uuid_calls w ∧
  length (heap w') = length (heap w) ∧
  (q ≠ p → heap w' !! q = heap w !! q) ∧
  (heap w' !! p = f <$> heap w !! p).
Proof.
  unfold poke. destruct (heap w !! p) as [t|] eqn:Hp; [|done].
  intros [= <-]. simpl. rewrite length_insert.
  repeat split; try done.
  - intros Hq. by rewrite list_lookup_insert_ne.
  - rewrite list_lookup_insert_eq by (by eapply lookup_lt_Some). done.
Qed.

Lemma GetByID_Ok (w w' : World) (id : string) (copy : ptr) :
  GetByID id w = (Ok copy, w') →
  ∃ p t, tasks w !! id = Some p ∧ heap w !! p = Some t ∧
         copy = length (heap w) ∧
         w' = {| heap := heap w ++ [t]; tasks := tasks w;
                 uuid_calls := uuid_calls w |}.
Proof.
  run_M. destruct (tasks w !! id) as [p|]; [|done].
  destruct (heap w !! p) as [t|] eqn:Hp; [|done].
  intros [= <- <-]. by exists p, t.
Qed.

Lemma Update_Ok (w w' : World) (task : ptr) :
  Update task w = (Ok (), w') →
  ∃ t, heap w !! task = Some t ∧ is_Some (tasks w !! ID t) ∧
       w' = {| heap := heap w ++ [t];
               tasks := <[ID t := length (heap w)]> (tasks w);
               uuid_calls := uuid_calls w |}.
Proof.
  run_M. destruct (heap w !! task) as [t|] eqn:Hp; [|done].
  destruct (tasks w !! ID t) as [q|] eqn:Hq; [|done].
  intros [= <-]. exists t. by rewrite Hq.
Qed.

(** *** UpdateTask *)

Lemma poke_new_cell (h : list Task) (m : gmap string ptr) (n : nat)
    (t : Task) (f : Task → Task) :
  poke (length h) f {| heap := h ++ [t]; tasks := m; uuid_calls := n |}
  = (Ok (), {| heap := h ++ [f t]; tasks := m; uuid_calls := n |}).
Proof.
  unfold poke. cbn [heap tasks uuid_calls]. rewrite lookup_new_cell.
  rewrite insert_app_r_alt, Nat.sub_diag by done. done.
Qed.

Lemma Update_new_cell (h : list Task) (m : gmap string ptr) (n : nat)
    (t : Task) :
  Update (length h) {| heap := h ++ [t]; tasks := m; uuid_calls := n |}
  = match m !! ID t with
    | Some _ =>
        (Ok (), {| heap := h ++ [t; t];
                   tasks := <[ID t := S (length h)]> m;
                   uuid_calls := n |})
    | None =>
        (Err (NewNotFoundError "task not found"),
         {| heap := h ++ [t]; tasks := m; uuid_calls := n |})
    end.
Proof.
  unfold Update, bind, load, new_task, fail.
  cbn [heap tasks uuid_calls]. rewrite lookup_new_cell.
  cbn [heap tasks uuid_calls].
  destruct (m !! ID t); [|done].
  rewrite length_app, <- app_assoc. cbn [length app].
  by rewrite Nat.add_1_r.
Qed.

(** Every way [UpdateTask] can end.  Either it succeeds, which takes a
    stored record, an acceptable input and the record's own identifier
    being a key of the store, and leaves two new cells holding the
    merged task (the working copy and the stored copy); or it does not,
    and then the map is untouched and the heap has at most grown. *)
Lemma UpdateTask_inv (w w' : World) (id : string)
    (input : UpdateTaskInput) (now : Time) (r : result ptr) :
  UpdateTask id input now w = (r, w') →
  (∃ p t, tasks w !! id = Some p ∧ heap w !! p = Some t ∧
          is_Some (tasks w !! ID t) ∧ update_valid input now ∧
          r = Ok (length (heap w)) ∧
          w' = {| heap := heap w ++ [merged t input; merged t input];
                  tasks := <[ID t := S (length (heap w))]> (tasks w);
                  uuid_calls := uuid_calls w |}) ∨
  ((∀ q, r ≠ Ok q) ∧ tasks w' = tasks w ∧
   uuid_calls w' = uuid_calls w ∧
   ∃ extra, heap w' = heap w ++ extra).
Proof.
  unfold UpdateTask.
  unfold bind at 1. unfold GetByID.
  destruct (tasks w !! id) as [p|] eqn:Hid.
  2:{ intros [= <- <-]. right. repeat split; try done.
      exists []. by rewrite app_nil_r. }
  unfold bind at 1, load.
  destruct (heap w !! p) as [t|] eqn:Hp.
  2:{ intros [= <- <-]. right. repeat split; try done.
      exists []. by rewrite app_nil_r. }
  unfold new_task. cbn [heap tasks uuid_calls].
  destruct w as [h m n]. cbn [heap tasks uuid_calls] in *.
  destruct input as [ti de st du]. unfold update_valid, merged.
  cbn [uti_Title uti_Description uti_Status uti_DueDate].
  assert (Hfail : ∀ (r0 : result ptr) (t0 : Task),
            (∀ q, r0 ≠ Ok q) →
            (r0, {| heap := h ++ [t0]; tasks := m; uuid_calls := n |})
            = (r, w') →
            (∀ q, r ≠ Ok q) ∧ tasks w' = m ∧ uuid_calls w' = n ∧
            ∃ extra, heap w' = h ++ extra).
  { intros r0 t0 Hr0 [= <- <-]. repeat split; try done. by exists [t0]. }
  unfold IsZero, After.
  destruct ti as [ti|];
    [destruct (String.eqb_spec ti "") as [->|Hti]|].
  all: destruct de as [de|].
  all: destruct st as [st|]; [destruct (isValidStatus st) eqn:Hst|].
  all: destruct du as [du|];
    [destruct (Z.eqb_spec du 0) as [->|Hdu];
     [|destruct (Z.ltb_spec now du) as [Hnow|Hnow]]|].
  all: cbv [bind ret fail negb];
    repeat (rewrite poke_new_cell; cbv beta iota);
    try (intros H; right; by refine (Hfail _ _ _ H)).
  all: rewrite Update_new_cell;
    cbn [ID set_Title set_Description set_Status set_DueDate
         Title Description Status DueDate];
    destruct (m !! ID t) as [q0|] eqn:Hq;
    [|intros H; right; by refine (Hfail _ _ _ H)].
  all: intros [= <- <-]; left; exists p, t;
    cbn [default from_option];
    repeat split; try done; try congruence; try (by eexists).
  all: try (intros s [= <-]; done).
  all: try (intros d [= <-]; done).
  all: try (intros d [= <-]; lia).
  by destruct t.
Qed.

Lemma UpdateTask_success (w : World) (id : string)
    (input : UpdateTaskInput) (now : Time) (p : ptr) (t : Task) :
  tasks w !! id = Some p → heap w !! p = Some t →
  is_Some (tasks w !! ID t) → update_valid input now →
  UpdateTask id input now w
  = (Ok (length (heap w)),
     {| heap := heap w ++ [merged t input; merged t input];
        tasks := <[ID t := S (length (heap w))]> (tasks w);
        uuid_calls := uuid_calls w |}).
Proof.
  intros Hid Hp [q Hq] (Hti & Hst & Hdu).
  unfold UpdateTask, merged.
  unfold bind at 1. unfold GetByID. rewrite Hid.
  unfold bind at 1, load. rewrite Hp.
  unfold new_task. cbn [heap tasks uuid_calls].
  destruct w as [h m n]. cbn [heap tasks uuid_calls] in *.
  destruct input as [ti de st du].
  cbn [uti_Title uti_Description uti_Status uti_DueDate] in *.
  unfold IsZero, After.
  destruct ti as [ti|];
    [destruct (String.eqb_spec ti "") as [->|Hne]; [done|]|].
  all: destruct de as [de|].
  all: destruct st as [st|]; [rewrite (Hst st eq_refl)|].
  all: destruct du as [du|];
    [destruct (Hdu du eq_refl) as [Hz Hn];
     destruct (Z.eqb_spec du 0) as [->|_]; [done|];
     destruct (Z.ltb_spec now du) as [_|Hge]; [|lia]|].
  all: cbv [bind ret fail negb];
    repeat (rewrite poke_new_cell; cbv beta iota).
  all: rewrite Update_new_cell;
    cbn [ID set_Title set_Description set_Status set_DueDate
         Title Description Status DueDate];
    rewrite Hq; cbn [default from_option]; try done.
  by destruct t.
Qed.

(** C8. [UpdateTask] on a stored record (held under its own identifier)
    with an input that passes the validation rules succeeds, and both
    the task it returns and the task a following [GetByID] returns are
    the partial merge: every unsupplied field keeps the stored value,
    every supplied field (the description unconditionally, an empty one
    included) has the supplied value, and the identifier is the old
    one.  The records stored under other identifiers are untouched. *)
Theorem UpdateTask_partial_merge (w : World) (id : string)
    (input : UpdateTaskInput) (now : Time) (p : ptr) (t : Task) :
  tasks w !! id = Some p → heap w !! p = Some t → ID t = id →
  update_valid input now →
  ∃ task w1 copy w2 got,
    UpdateTask id input now w = (Ok task, w1) ∧
    heap w1 !! task = Some got ∧
    GetByID id w1 = (Ok copy, w2) ∧
    heap w2 !! copy = Some got ∧
    got = merged t input ∧
    ID got = id ∧
    (∀ v, uti_Title input = Some v → Title got = v) ∧
    (uti_Title input = None → Title got = Title t) ∧
    (∀ v, uti_Description input = Some v → Description got = v) ∧
    (uti_Description input = None → Description got = Description t) ∧
    (∀ v, uti_Status input = Some v → Status got = v) ∧
    (uti_Status input = None → Status got = Status t) ∧
    (∀ v, uti_DueDate input = Some v → DueDate got = v) ∧
    (uti_DueDate input = None → DueDate got = DueDate t) ∧
    (∀ id' t', id' ≠ id → stored w id' = Some t' →
               stored w1 id' = Some t').
Proof.
  intros Hid Hp Hkey Hvalid.
  assert (Hlt : p < length (heap w)) by (by eapply lookup_lt_Some).
  eexists _, _, _, _, (merged t input).
  split.
  { apply (UpdateTask_success w id input now p t); try done.
    rewrite Hkey. by eexists. }
  split.
  { cbn [heap]. rewrite lookup_app_r by done.
    by rewrite Nat.sub_diag. }
  split.
  { unfold GetByID. cbn [tasks]. rewrite Hkey, lookup_insert_eq.
    unfold bind, load, new_task. cbn [heap].
    rewrite lookup_app_r by lia.
    replace (S (length (heap w)) - length (heap w)) with 1 by lia.
    reflexivity. }
  split; [apply lookup_new_cell|].
  unfold merged.
  repeat split; cbn [ID Title Description Status DueDate]; try done.
  1-8: by intros; simplify_eq/=; rewrite ?H.
  intros id' t' Hne. unfold stored. cbn [tasks heap].
  rewrite Hkey, lookup_insert_ne by done.
  destruct (tasks w !! id') as [q|]; [|done]. cbn.
  intros Hq. by rewrite lookup_app_l by (by eapply lookup_lt_Some).
Qed.

(** *** The invariant of the store *)

Lemma store_ok_heap_grows (w w' : World) (extra : list Task) :
  store_ok w → tasks w' = tasks w → heap w' = heap w ++ extra →
  store_ok w'.
Proof.
  intros Hok Htk Hheap id p. rewrite Htk, Hheap. intros Hid.
  destruct (Hok id p Hid) as (t & Hp & Hrest). exists t.
  split; [|done]. by rewrite lookup_app_l by (by eapply lookup_lt_Some).
Qed.

Lemma CreateTask_inv (w w' : World) (input : CreateTaskInput)
    (now : Time) (r : result ptr) :
  CreateTask input now w = (r, w') →
  (∀ q, r ≠ Ok q) ∧ w' = w ∨
  ∃ status,
    cti_Title input ≠ "" ∧ cti_DueDate input ≠ 0%Z ∧
    (status = "PENDING" ∨ status = "IN_PROGRESS" ∨ status = "DONE") ∧
    r = Ok (length (heap w)) ∧
    w' = {| heap := heap w ++
                    [{| ID := uuid_NewString (uuid_calls w);
                        Title := cti_Title input;
                        Description := cti_Description input;
                        Status := status;
                        DueDate := cti_DueDate input |}];
            tasks := <[uuid_NewString (uuid_calls w) := length (heap w)]>
                       (tasks w);
            uuid_calls := S (uuid_calls w) |}.
Proof.
  unfold CreateTask, IsZero.
  destruct (String.eqb_spec (cti_Title input) "") as [|Hti];
    [intros [= <- <-]; by left|].
  destruct (Z.eqb_spec (cti_DueDate input) 0) as [|Hdu];
    [intros [= <- <-]; by left|].
  destruct (negb _); [intros [= <- <-]; by left|].
  destruct (cti_Status input) as [s|];
    [destruct (isValidStatus s) eqn:Hs; cbn [negb];
     [apply isValidStatus_true in Hs|intros [= <- <-]; by left]|].
  all: unfold bind, new_task, Create, ret;
    cbn [heap tasks uuid_calls]; rewrite lookup_new_cell;
    rewrite insert_app_r_alt, Nat.sub_diag by done;
    intros [= <- <-]; right.
  - by exists s.
  - exists StatusPending. repeat split; try done. by left.
Qed.

Lemma CreateTask_store_ok (w : World) (input : CreateTaskInput)
    (now : Time) :
  uuid_never_empty → store_ok w → store_ok (CreateTask input now w).2.
Proof.
  intros Hne Hok.
  destruct (CreateTask input now w) as [r w'] eqn:Hrun.
  apply CreateTask_inv in Hrun as [[_ ->]|(st & Hti & Hdu & Hst & _ & ->)];
    [done|].
  intros id p. cbn [snd heap tasks].
  destruct (decide (id = uuid_NewString (uuid_calls w))) as [->|Hid].
  - rewrite lookup_insert_eq. intros [= <-]. eexists.
    split; [apply lookup_new_cell|]. split; [done|].
    repeat split; try done. apply Hne.
  - rewrite lookup_insert_ne by done. intros Hp.
    destruct (Hok id p Hp) as (t & Ht & Hrest). exists t.
    split; [|done]. by apply lookup_old_cell.
Qed.

Lemma UpdateTask_store_ok (w : World) (id : string)
    (input : UpdateTaskInput) (now : Time) :
  store_ok w → store_ok (UpdateTask id input now w).2.
Proof.
  intros Hok.
  destruct (UpdateTask id input now w) as [r w'] eqn:Hrun.
  apply UpdateTask_inv in Hrun
    as [(p & t & Hid & Hp & _ & (Hti & Hst & Hdu) & _ & ->)
       |(_ & Htk & _ & extra & Hheap)];
    [|by eapply store_ok_heap_grows].
  destruct (Hok id p Hid) as (t0 & Hp0 & Hkey & Hi & Ht & Hs & Hd).
  assert (t0 = t) as -> by congruence.
  intros id' p'. cbn [snd heap tasks].
  destruct (decide (id' = ID t)) as [->|Hne].
  - rewrite lookup_insert_eq. intros [= <-]. exists (merged t input).
    split.
    { rewrite lookup_app_r by lia.
      by replace (S (length (heap w)) - length (heap w)) with 1 by lia. }
    split; [done|]. unfold valid_task, merged.
    cbn [ID Title Description Status DueDate].
    split; [done|]. split; [|split].
    + destruct (uti_Title input) as [v|]; [|done]. cbn. congruence.
    + destruct (uti_Status input) as [v|]; [|done]. cbn.
      by apply isValidStatus_true, Hst.
    + destruct (uti_DueDate input) as [v|]; [|done]. cbn.
      by apply Hdu.
  - rewrite lookup_insert_ne by done. intros Hp'.
    destruct (Hok id' p' Hp') as (t' & Ht' & Hrest). exists t'.
    split; [|done].
    by rewrite lookup_app_l by (by eapply lookup_lt_Some).
Qed.

Lemma after_call_store_ok (c : ServiceCall) (w : World) :
  uuid_never_empty → store_ok w → store_ok (after_call c w).
Proof.
  intros Hne Hok. destruct c as [input now|id|id input now|id|filter].
  - by apply CreateTask_store_ok.
  - cbn [after_call]. destruct (GetTask id w) as [r w'] eqn:Hrun.
    cbn [snd]. unfold GetTask, bind, ret in Hrun.
    destruct (GetByID id w) as [[copy| |] w1] eqn:Hget.
    + apply GetByID_Ok in Hget as (p & t & _ & _ & _ & ->).
      injection Hrun as _ <-. by eapply store_ok_heap_grows.
    + unfold GetByID, bind, load, fail in Hget.
      repeat case_match; simplify_eq. done.
    + unfold GetByID, bind, load, fail in Hget.
      repeat case_match; simplify_eq; done.
  - by apply UpdateTask_store_ok.
  - cbn [after_call]. unfold DeleteTask, Delete, fail.
    destruct (tasks w !! id) as [p|] eqn:Hid; [|done].
    intros id' p'. cbn [snd heap tasks].
    intros [_ Hp']%lookup_delete_Some. by apply Hok.
  - cbn [after_call]. unfold ListTasks, ListAll, bind.
    repeat case_match; simplify_eq; done.
Qed.

Lemma after_calls_store_ok (cs : list ServiceCall) (w : World) :
  uuid_never_empty → store_ok w → store_ok (after_calls cs w).
Proof.
  intros Hne. revert w.
  induction cs as [|c cs IH]; intros w Hok; [done|].
  apply IH. by apply after_call_store_ok.
Qed.

(** C5. After any sequence of calls to the service, made on a new
    repository, every record in the store has a non-empty identifier
    (which is the key it is stored under), a non-empty title, a status
    among PENDING, IN_PROGRESS and DONE, and a non-zero due date; this
    takes [uuid.NewString] never to return the empty string. *)
Theorem service_keeps_store_ok (cs : list ServiceCall) :
  uuid_never_empty → store_ok (after_calls cs empty_world).
Proof.
  intros Hne. apply after_calls_store_ok; [done|].
  intros id p. cbn [empty_world tasks]. by rewrite lookup_empty.
Qed.


(** *** ListTasks: ordering and pagination *)

Ltac int_consts :=
  unfold in_int, int_add, int_sub, int_mul, int_wrap, int_min, int_max in *;
  change (2 ^ 63)%Z with 9223372036854775808%Z in *;
  change (2 ^ 64)%Z with 18446744073709551616%Z in *.

Lemma int_wrap_id (z : Z) : in_int z → int_wrap z = z.
Proof. intros Hz. int_consts. rewrite Z.mod_small; lia. Qed.

Lemma page_of_pos (filter : TaskFilter) : (1 <= page_of filter)%Z.
Proof. unfold page_of. destruct (Z.leb_spec (tf_Page filter) 0); lia. Qed.

Lemma size_of_pos (filter : TaskFilter) : (1 <= size_of filter)%Z.
Proof.
  unfold size_of. destruct (Z.leb_spec (tf_PageSize filter) 0); lia.
Qed.

(** Whatever [ListTasks] returns is a run of consecutive elements of
    the sorted slice. *)
Lemma ListTasks_of_is_window (tasks0 : list Task) (filter : TaskFilter)
    (out : list Task) :
  ListTasks_of tasks0 filter = Some out →
  ∃ i n,
    out = take n (drop i (sort_Slice (retain (tf_Status filter) tasks0)
                                     less_DueDate)).
Proof.
  unfold ListTasks_of. cbv zeta.
  set (sorted := sort_Slice _ _).
  destruct (_ >=? _)%Z.
  - intros [= <-]. exists 0, 0. by rewrite take_0.
  - unfold slice. destruct (_ && _); [|done].
    intros [= <-]. by eexists _, _.
Qed.

(** Within the range of [int], the page is the window
    [(page-1)*size, page*size) of the sorted slice, cut at its end. *)
Lemma ListTasks_of_window (tasks0 : list Task) (filter : TaskFilter) :
  (page_of filter * size_of filter <= int_max)%Z →
  ListTasks_of tasks0 filter
  = Some (take (Z.to_nat (size_of filter))
               (drop (Z.to_nat ((page_of filter - 1) * size_of filter))
                     (sort_Slice (retain (tf_Status filter) tasks0)
                                 less_DueDate))).
Proof.
  intros Hfit. unfold ListTasks_of. cbv zeta.
  fold (page_of filter) (size_of filter).
  set (sorted := sort_Slice _ _).
  pose proof (page_of_pos filter) as Hp.
  pose proof (size_of_pos filter) as Hs.
  set (page := page_of filter) in *. set (size := size_of filter) in *.
  assert (Hstart : (0 <= (page - 1) * size)%Z) by nia.
  assert (Hend : ((page - 1) * size + size <= int_max)%Z) by nia.
  assert (int_sub page 1 = (page - 1)%Z) as ->.
  { apply int_wrap_id. unfold in_int, int_min, int_max in *. nia. }
  assert (int_mul (page - 1) size = ((page - 1) * size)%Z) as ->.
  { apply int_wrap_id. unfold in_int, int_min, int_max in *. nia. }
  assert (int_add ((page - 1) * size) size
          = ((page - 1) * size + size)%Z) as ->.
  { apply int_wrap_id. unfold in_int, int_min, int_max in *. nia. }
  set (start := ((page - 1) * size)%Z) in *.
  destruct (Z.geb_spec start (Z.of_nat (length sorted))) as [Hge|Hlt].
  { rewrite drop_ge by lia. by rewrite take_nil. }
  unfold slice.
  destruct (Z.gtb_spec (start + size) (Z.of_nat (length sorted)))
    as [Hcut|Hin].
  - replace ((0 <=? start)%Z) with true by (symmetry; apply Z.leb_le; lia).
    replace ((start <=? Z.of_nat (length sorted))%Z) with true
      by (symmetry; apply Z.leb_le; lia).
    rewrite Z.leb_refl. cbn [andb]. f_equal.
    rewrite !take_ge; [done| |]; rewrite length_drop; lia.
  - replace ((0 <=? start)%Z) with true by (symmetry; apply Z.leb_le; lia).
    replace ((start <=? start + size)%Z) with true
      by (symmetry; apply Z.leb_le; lia).
    replace ((start + size <=? Z.of_nat (length sorted))%Z) with true
      by (symmetry; apply Z.leb_le; lia).
    cbn [andb]. do 3 f_equal. lia.
Qed.

Lemma less_DueDate_strict_weak : strict_weak less_DueDate.
Proof.
  unfold strict_weak, less_DueDate, Before. repeat split.
  - intros a. apply Z.ltb_irrefl.
  - intros a b c. rewrite !Z.ltb_lt. lia.
  - intros a b c. rewrite !Z.ltb_ge. lia.
Qed.

Lemma sorted_by_ascending (l : list Task) :
  sorted_by less_DueDate l → ascending l.
Proof.
  unfold sorted_by, ascending, less_DueDate, Before.
  induction 1 as [|a l Hl IH Ha]; constructor; [done|].
  eapply Forall_impl; [exact Ha|]. intros b. cbn. rewrite Z.ltb_ge. lia.
Qed.

(** A page is a run of consecutive elements of the sorted slice, which
    holds the retained tasks in ascending order. *)
Lemma ListTasks_of_sorted_run (tasks0 : list Task) (filter : TaskFilter)
    (out : list Task) :
  sort_Slice_contract sort_Slice →
  ListTasks_of tasks0 filter = Some out →
  ascending out ∧
  ∃ pre post,
    pre ++ out ++ post ≡ₚ retain (tf_Status filter) tasks0 ∧
    ascending (pre ++ out ++ post).
Proof.
  intros Hsort Hout.
  apply ListTasks_of_is_window in Hout as (i & n & ->).
  destruct (Hsort (retain (tf_Status filter) tasks0) less_DueDate)
    as [Hperm Hsorted].
  specialize (Hsorted less_DueDate_strict_weak).
  apply sorted_by_ascending in Hsorted.
  set (sorted := sort_Slice _ _) in *.
  assert (Hall : take i sorted ++ take n (drop i sorted)
                   ++ drop n (drop i sorted) = sorted).
  { by rewrite (take_drop n), (take_drop i). }
  split.
  - unfold ascending in *. rewrite <- Hall in Hsorted.
    apply StronglySorted_app_1_r in Hsorted.
    by apply StronglySorted_app_1_l in Hsorted.
  - exists (take i sorted), (drop n (drop i sorted)).
    by rewrite Hall.
Qed.


(** The pagination example of the specification: 25 tasks and a page
    size of 10 give pages of 10, 10 and 5 tasks, and page 100 is
    empty. *)
Lemma ListTasks_of_25_tasks (tasks0 : list Task) (page : Z) :
  sort_Slice_contract sort_Slice → length tasks0 = 25 →
  page = 1%Z ∨ page = 2%Z ∨ page = 3%Z ∨ page = 100%Z →
  ∃ out,
    ListTasks_of tasks0 {| tf_Status := None; tf_Page := page;
                           tf_PageSize := 10 |} = Some out ∧
    length out = (if (page <=? 2)%Z then 10
                  else if (page =? 3)%Z then 5 else 0).
Proof.
  intros Hsort Hlen Hpage. eexists. split.
  { apply ListTasks_of_window. unfold int_max.
    destruct Hpage as [->|[->|[->| ->]]]; done. }
  rewrite length_take, length_drop.
  destruct (Hsort tasks0 less_DueDate) as [Hperm _].
  cbn [retain tf_Status]. rewrite (Permutation_length Hperm), Hlen.
  destruct Hpage as [->|[->|[->| ->]]]; reflexivity.
Qed.

(** C3 (where the code departs from it). The product
    [(page - 1) * size] is computed in [int] and wraps around.  With
    page 4294967297 and page size 4294967296 it wraps to 0, and
    [ListTasks] returns every task, as for page 1, where the specification
    has the empty page; with page 3 and page size 9223372036854775807 it
    wraps to -2, which passes the range check, and the slice
    expression panics, whatever the tasks. *)
Theorem ListTasks_of_page_overflow (tasks0 : list Task) :
  sort_Slice_contract sort_Slice →
  tasks0 ≠ [] →
  (Z.of_nat (length tasks0) <= 4294967296)%Z →
  ListTasks_of tasks0 {| tf_Status := None; tf_Page := 4294967297;
                         tf_PageSize := 4294967296 |}
  = Some (sort_Slice tasks0 less_DueDate) ∧
  sort_Slice tasks0 less_DueDate ≠ [] ∧
  ListTasks_of tasks0 {| tf_Status := None; tf_Page := 3;
                         tf_PageSize := 9223372036854775807 |}
  = None.
Proof.
  intros Hsort Hne Hlen.
  destruct (Hsort tasks0 less_DueDate) as [Hperm _].
  pose proof (Permutation_length Hperm) as Hl.
  unfold ListTasks_of.
  cbn [retain tf_Status tf_Page tf_PageSize Z.leb Z.compare].
  set (sorted := sort_Slice _ _) in *.
  assert (0 < length sorted) as Hpos.
  { rewrite Hl. destruct tasks0; [done|cbn; lia]. }
  change (int_mul (int_sub 4294967297 1) 4294967296) with 0%Z.
  change (int_add 0 4294967296) with 4294967296%Z.
  change (int_mul (int_sub 3 1) 9223372036854775807) with (-2)%Z.
  change (int_add (-2) 9223372036854775807) with 9223372036854775805%Z.
  repeat split.
  - destruct (Z.geb_spec 0 (Z.of_nat (length sorted))); [lia|].
    unfold slice.
    destruct (Z.gtb_spec 4294967296 (Z.of_nat (length sorted))).
    + replace ((0 <=? Z.of_nat (length sorted))%Z) with true
        by (symmetry; apply Z.leb_le; lia).
      rewrite !Z.leb_refl. cbn [andb]. f_equal.
      rewrite Z.sub_0_r, Nat2Z.id. cbn [Z.to_nat drop].
      by rewrite firstn_all.
    + assert (Z.of_nat (length sorted) = 4294967296%Z) as Heq by lia.
      rewrite Heq. cbn [andb Z.leb Z.compare Pos.compare Pos.compare_cont].
      f_equal. rewrite <- Heq, Z.sub_0_r, Nat2Z.id.
      cbn [Z.to_nat drop]. by rewrite firstn_all.
  - intros Hnil. rewrite Hnil in Hpos. cbn in Hpos. lia.
  - destruct (Z.geb_spec (-2) (Z.of_nat (length sorted))); [lia|].
    unfold slice. by destruct (_ >? _)%Z.
Qed.

(** C1 (as amended). The caller holds a live reference to a stored
    record in exactly one situation: the object passed to [Create],
    which is the object [CreateTask] returns, is itself the stored
    record, so an assignment to it made after the call has returned is
    what [GetByID] hands out afterwards.  A copy returned by [GetByID]
    is not: assigning to it changes no stored record.  After [Update]
    has returned, no object that existed before the call is the record
    stored under the updated identifier. *)
Theorem live_reference_only_after_Create (w : World) (f : Task → Task) :
  (∀ task t,
     heap w !! task = Some t →
     ∃ w1 w2 copy w3,
       let id := uuid_NewString (uuid_calls w) in
       Create task w = (Ok (), w1) ∧
       poke task f w1 = (Ok (), w2) ∧
       GetByID id w2 = (Ok copy, w3) ∧
       heap w3 !! copy = Some (f (set_ID id t))) ∧
  (∀ input now task w1,
     CreateTask input now w = (Ok task, w1) →
     ∃ t w2 copy w3,
       let id := uuid_NewString (uuid_calls w) in
       heap w1 !! task = Some t ∧
       tasks w1 !! id = Some task ∧
       poke task f w1 = (Ok (), w2) ∧
       GetByID id w2 = (Ok copy, w3) ∧
       heap w3 !! copy = Some (f t)) ∧
  (∀ id copy w1 w2,
     GetByID id w = (Ok copy, w1) →
     poke copy f w1 = (Ok (), w2) →
     ∀ id' t', stored w id' = Some t' →
               stored w1 id' = Some t' ∧ stored w2 id' = Some t') ∧
  (∀ task t w1 p w2,
     heap w !! task = Some t →
     Update task w = (Ok (), w1) →
     p < length (heap w) →
     poke p f w1 = (Ok (), w2) →
     stored w1 (ID t) = Some t ∧ stored w2 (ID t) = Some t).
Proof.
  split; [|split; [|split]].
  - intros task t Ht.
    assert (Hlt : task < length (heap w)) by (by eapply lookup_lt_Some).
    eexists _, _, _, _. simpl.
    split; [by run_M; rewrite Ht|].
    split; [by run_M; rewrite list_lookup_insert_eq by done|].
    run_M. rewrite lookup_insert_eq.
    rewrite list_lookup_insert_eq by (by rewrite length_insert).
    split; [done|]. apply lookup_new_cell.
  - intros input now task w1 Hrun.
    apply CreateTask_inv in Hrun
      as [[Hno _]|(st & _ & _ & _ & [= ->] & ->)];
      [by destruct (Hno task)|].
    eexists _, _, _, _. cbn zeta. cbn [heap tasks].
    split; [apply lookup_new_cell|].
    split; [apply lookup_insert_eq|].
    split; [apply poke_new_cell|].
    unfold GetByID, bind, load, new_task. cbn [heap tasks].
    rewrite lookup_insert_eq, lookup_new_cell.
    split; [done|]. cbn [heap]. apply lookup_new_cell.
  - intros id copy w1 w2 Hget Hpoke id' t' Hst.
    apply GetByID_Ok in Hget as (p & t & _ & _ & -> & ->).
    unfold stored in *.
    destruct (tasks w !! id') as [q|] eqn:Hq; [|done]. simpl in Hst.
    assert (q < length (heap w)) by (by eapply lookup_lt_Some).
    destruct (poke_lookup _ _ _ q _ Hpoke) as (Htk & _ & _ & Hne & _).
    cbn [heap tasks] in *. rewrite Htk, Hq. cbn [mbind option_bind].
    rewrite Hne by lia. split; by apply lookup_old_cell.
  - intros task t w1 p w2 Ht Hupd Hp Hpoke.
    apply Update_Ok in Hupd as (t0 & Ht0 & _ & ->).
    assert (t0 = t) as -> by congruence.
    destruct (poke_lookup _ _ _ (length (heap w)) _ Hpoke)
      as (Htk & _ & _ & Hne & _).
    unfold stored. cbn [heap tasks] in *.
    rewrite Htk, lookup_insert_eq. cbn [mbind option_bind].
    rewrite Hne by lia. split; apply lookup_new_cell.
Qed.

(** C10. [UpdateTask] is atomic on error: whenever it returns an error
    (the not-found error of the lookup, a validation error,
    even one raised after earlier fields were written to the working
    copy, or the not-found error of the final [Update]), the map of the
    repository is the same map and every task object that existed
    before the call, hence every stored record, is unchanged. *)
Theorem UpdateTask_error_leaves_store (w w' : World) (id : string)
    (input : UpdateTaskInput) (now : Time) (e : AppError) :
  UpdateTask id input now w = (Err e, w') →
  tasks w' = tasks w ∧
  (∀ p t, heap w !! p = Some t → heap w' !! p = Some t) ∧
  (∀ id' t, stored w id' = Some t → stored w' id' = Some t).
Proof.
  intros Hupd.
  apply UpdateTask_inv in Hupd as [(p & t & _ & _ & _ & _ & [=] & _)|Hno].
  destruct Hno as (_ & Htk & _ & extra & Hheap).
  assert (Hold : ∀ p t, heap w !! p = Some t → heap w' !! p = Some t).
  { intros p t Hp. rewrite Hheap.
    rewrite lookup_app_l by (by eapply lookup_lt_Some). done. }
  repeat split; try done.
  intros id' t. unfold stored. rewrite Htk.
  destruct (tasks w !! id') as [q|]; [|done]. simpl. apply Hold.
Qed.

End TaskApi.

(** ** More of the repository *)

Section Repository.

Variable uuid_NewString : nat → string.
Variable range : gmap string ptr → list (string * ptr).

Lemma stored_Some (w : World) (id : string) (t : Task) :
  stored w id = Some t ↔ ∃ p, tasks w !! id = Some p ∧ heap w !! p = Some t.
Proof.
  unfold stored. destruct (tasks w !! id) as [p|]; cbn.
  - split; [by exists p|]. by intros (q & [= <-] & Hq).
  - split; [done|]. by intros (q & [=] & _).
Qed.

(** X1. [Delete] of an identifier that is a key succeeds, and so does
    [DeleteTask]; afterwards [GetByID] and a second [Delete] of that
    identifier give the not-found error, the store has one entry less, no
    task object has changed and every other identifier leads to the
    record it led to. *)
Theorem Delete_removes (w : World) (id : string) (p : ptr) :
  tasks w !! id = Some p →
  ∃ w1,
    Delete id w = (Ok (), w1) ∧
    DeleteTask id w = (Ok (), w1) ∧
    heap w1 = heap w ∧
    GetByID id w1 = (Err (NewNotFoundError "task not found"), w1) ∧
    Delete id w1 = (Err (NewNotFoundError "task not found"), w1) ∧
    size (tasks w1) + 1 = size (tasks w) ∧
    ∀ id', id' ≠ id → stored w1 id' = stored w id'.
Proof.
  intros Hid.
  exists {| heap := heap w; tasks := delete id (tasks w);
            uuid_calls := uuid_calls w |}.
  unfold DeleteTask, Delete, GetByID, fail.
  rewrite Hid. cbn [tasks heap]. rewrite lookup_delete_eq.
  repeat split; try done.
  - rewrite map_size_delete_Some by (by eexists).
    assert (size (tasks w) ≠ 0); [|lia].
    intros Hsz%map_size_empty_iff. by rewrite Hsz, lookup_empty in Hid.
  - intros id' Hne. unfold stored. cbn [tasks heap].
    by rewrite lookup_delete_ne.
Qed.

(** X2. When every pointer of the map leads to a task object and [range]
    visits every entry once, [ListAll] returns, leaves the state as it
    was, and its result holds one task per entry of the map: as many
    tasks as the map has keys, and a task is in the result exactly when
    it is the record stored under some identifier. *)
Theorem ListAll_lists_store (w : World) :
  range_contract range →
  (∀ id p, tasks w !! id = Some p → is_Some (heap w !! p)) →
  ∃ tasks0,
    ListAll range w = (Ok tasks0, w) ∧
    length tasks0 = size (tasks w) ∧
    ∀ t, t ∈ tasks0 ↔ ∃ id, stored w id = Some t.
Proof.
  intros Hrange Hptr. unfold ListAll.
  destruct (mapM _ (range (tasks w))) as [out|] eqn:Hout.
  - exists out. split; [done|].
    apply mapM_Some in Hout. split.
    { rewrite <- (Forall2_length _ _ _ Hout), (Hrange (tasks w)).
      apply length_map_to_list. }
    intros t. split.
    + intros [i Hi]%list_elem_of_lookup.
      destruct (Forall2_lookup_r _ _ _ _ _ Hout Hi) as ([id p] & Hkp & Hp).
      apply list_elem_of_lookup_2 in Hkp. rewrite (Hrange (tasks w)) in Hkp.
      apply elem_of_map_to_list in Hkp.
      exists id. apply stored_Some. by exists p.
    + intros (id & (p & Hid & Hp)%stored_Some).
      assert ((id, p) ∈ range (tasks w)) as [i Hi]%list_elem_of_lookup.
      { rewrite (Hrange (tasks w)). by apply elem_of_map_to_list. }
      destruct (Forall2_lookup_l _ _ _ _ _ Hout Hi) as (t' & Ht' & Heq).
      cbn in Heq. assert (t' = t) as -> by congruence.
      by eapply list_elem_of_lookup_2.
  - apply mapM_None, Exists_exists in Hout as ([id p] & Hkp & Hp).
    rewrite (Hrange (tasks w)) in Hkp. apply elem_of_map_to_list in Hkp.
    destruct (Hptr id p Hkp) as [t Ht]. cbn in Hp. congruence.
Qed.

(** X3. Repository [Update] of a task object whose identifier is a key
    replaces the record wholesale: it succeeds, [GetByID] at that
    identifier then returns a copy equal to the object in every field,
    the set of keys is the same, no existing task object is modified and
    the records under other identifiers are untouched. *)
Theorem Update_replaces (w : World) (task : ptr) (t : Task) :
  heap w !! task = Some t → is_Some (tasks w !! ID t) →
  ∃ w1 copy w2,
    Update task w = (Ok (), w1) ∧
    GetByID (ID t) w1 = (Ok copy, w2) ∧
    heap w2 !! copy = Some t ∧
    dom (tasks w1) = dom (tasks w) ∧
    (∀ p u, heap w !! p = Some u → heap w1 !! p = Some u) ∧
    ∀ id' u, id' ≠ ID t → stored w id' = Some u → stored w1 id' = Some u.
Proof.
  intros Ht [q Hq]. eexists _, _, _.
  split.
  { unfold Update, bind, load, new_task. rewrite Ht, Hq. reflexivity. }
  cbn [heap tasks uuid_calls].
  split.
  { unfold GetByID, bind, load, new_task. cbn [heap tasks uuid_calls].
    rewrite lookup_insert_eq, lookup_new_cell. reflexivity. }
  cbn [heap]. split; [apply lookup_new_cell|].
  split; [apply dom_insert_lookup_L; by eexists|].
  split; [intros p u Hp; by apply lookup_old_cell|].
  intros id' u Hne (p & Hid' & Hp)%stored_Some.
  apply stored_Some. exists p. cbn [heap tasks].
  rewrite lookup_insert_ne by done. split; [done|].
  by apply lookup_old_cell.
Qed.

(** X4. [Create] called twice on the same task object leaves both
    identifiers in the map, leading to that one object, which carries the
    second identifier: what [GetByID] returns for the first identifier is
    a task with another identifier than the one asked for. *)
Theorem Create_twice_same_object (w : World) (task : ptr) (t : Task) :
  uuid_never_repeats uuid_NewString →
  heap w !! task = Some t →
  ∃ w1 w2 copy w3,
    let id1 := uuid_NewString (uuid_calls w) in
    let id2 := uuid_NewString (S (uuid_calls w)) in
    Create uuid_NewString task w = (Ok (), w1) ∧
    Create uuid_NewString task w1 = (Ok (), w2) ∧
    tasks w2 !! id1 = Some task ∧
    tasks w2 !! id2 = Some task ∧
    GetByID id1 w2 = (Ok copy, w3) ∧
    heap w3 !! copy = Some (set_ID id2 t) ∧
    id1 ≠ id2.
Proof.
  intros Hinj Ht.
  assert (Hlt : task < length (heap w)) by (by eapply lookup_lt_Some).
  assert (Hne : uuid_NewString (uuid_calls w)
                ≠ uuid_NewString (S (uuid_calls w))).
  { intros Heq%Hinj. lia. }
  eexists _, _, _, _. cbn zeta.
  split; [by apply Create_valid_ptr|].
  split.
  { apply Create_valid_ptr. cbn [heap].
    by apply list_lookup_insert_eq. }
  cbn [heap tasks uuid_calls].
  split; [rewrite lookup_insert_ne by done; apply lookup_insert_eq|].
  split; [apply lookup_insert_eq|].
  split.
  { unfold GetByID, bind, load, new_task. cbn [heap tasks uuid_calls].
    rewrite lookup_insert_ne by done. rewrite lookup_insert_eq.
    rewrite list_lookup_insert_eq by (by rewrite length_insert).
    reflexivity. }
  split; [|done]. cbn [heap].
  rewrite lookup_app_r by (rewrite !length_insert; lia).
  by rewrite Nat.sub_diag.
Qed.

(** X5. Two calls of [GetByID] for the same identifier hand out two
    different task objects with the same contents, and neither call
    changes the map or an existing object; an assignment through the
    first copy changes neither the second copy nor any object that
    existed before the calls. *)
Theorem GetByID_copies_independent (w w1 : World) (id : string)
    (c1 : ptr) (f : Task → Task) :
  GetByID id w = (Ok c1, w1) →
  ∃ c2 w2 w3 t,
    GetByID id w1 = (Ok c2, w2) ∧
    c1 ≠ c2 ∧
    tasks w2 = tasks w ∧
    heap w2 !! c1 = Some t ∧ heap w2 !! c2 = Some t ∧
    poke c1 f w2 = (Ok (), w3) ∧
    heap w3 !! c1 = Some (f t) ∧
    heap w3 !! c2 = Some t ∧
    ∀ p u, heap w !! p = Some u → heap w3 !! p = Some u.
Proof.
  intros (p & t & Hid & Hp & -> & ->)%GetByID_Ok.
  assert (Hlt : p < length (heap w)) by (by eapply lookup_lt_Some).
  eexists _, _, _, t.
  split.
  { unfold GetByID, bind, load, new_task. cbn [heap tasks uuid_calls].
    rewrite Hid, (lookup_old_cell _ _ _ _ Hp). reflexivity. }
  cbn [heap tasks uuid_calls]. rewrite length_app. cbn [length].
  split; [lia|]. split; [done|].
  assert (H1 : ((heap w ++ [t]) ++ [t]) !! length (heap w) = Some t).
  { apply lookup_old_cell, lookup_new_cell. }
  assert (H2 : ((heap w ++ [t]) ++ [t]) !! (length (heap w) + 1) = Some t).
  { replace (length (heap w) + 1) with (length (heap w ++ [t]))
      by (rewrite length_app; cbn; lia).
    apply lookup_new_cell. }
  split; [done|]. split; [done|].
  split.
  { unfold poke. cbn [heap tasks uuid_calls]. rewrite H1. reflexivity. }
  cbn [heap].
  split.
  { apply list_lookup_insert_eq. rewrite !length_app. cbn. lia. }
  split.
  { rewrite list_lookup_insert_ne by lia. done. }
  intros q u Hq.
  assert (q < length (heap w)) by (by eapply lookup_lt_Some).
  rewrite list_lookup_insert_ne by lia.
  by apply lookup_old_cell, lookup_old_cell.
Qed.

End Repository.

(** ** More of pkg/errors and of the service *)

(** X13. The two kinds of error are distinguishable: no [AppError] is
    both a validation error and a not-found error, each constructor
    builds an error of its own kind and of that kind only, and [Error]
    gives back the message the error was built from. *)
Theorem error_kinds_exclusive (e : AppError) (msg : string) :
  ¬ (IsValidation e = true ∧ IsNotFound e = true) ∧
  IsValidation (NewValidationError msg) = true ∧
  IsNotFound (NewValidationError msg) = false ∧
  Error (NewValidationError msg) = msg ∧
  IsNotFound (NewNotFoundError msg) = true ∧
  IsValidation (NewNotFoundError msg) = false ∧
  Error (NewNotFoundError msg) = msg.
Proof.
  split; [|done].
  unfold IsValidation, IsNotFound. rewrite !String.eqb_eq.
  intros [Hv Hn]. rewrite Hv in Hn. discriminate Hn.
Qed.

Section Service.

Variable uuid_NewString : nat → string.
Variable range : gmap string ptr → list (string * ptr).
Variable sort_Slice : list Task → (Task → Task → bool) → list Task.

(** The state after a task object holding [t] has been allocated. *)
Definition grown (w : World) (t : Task) : World :=
  {| heap := heap w ++ [t]; tasks := tasks w; uuid_calls := uuid_calls w |}.

(** [UpdateTask] on a stored record, in full: the first failing check
    decides the validation error; when none fails, the final [Update]
    decides between the merged task and the not-found error. *)
Lemma UpdateTask_eq (w : World) (id : string) (input : UpdateTaskInput)
    (now : Time) (p : ptr) (t : Task) :
  tasks w !! id = Some p → heap w !! p = Some t →
  (∃ msg t',
     update_error input now = Some msg ∧
     UpdateTask id input now w
     = (Err (NewValidationError msg), grown w t')) ∨
  (update_error input now = None ∧
   UpdateTask id input now w
   = match tasks w !! ID t with
     | Some _ =>
         (Ok (length (heap w)),
          {| heap := heap w ++ [merged t input; merged t input];
             tasks := <[ID t := S (length (heap w))]> (tasks w);
             uuid_calls := uuid_calls w |})
     | None =>
         (Err (NewNotFoundError "task not found"),
          grown w (merged t input))
     end).
Proof.
  intros Hid Hp.
  enough (∀ run, run = UpdateTask id input now w →
            (∃ msg t',
               update_error input now = Some msg ∧
               run = (Err (NewValidationError msg), grown w t')) ∨
            (update_error input now = None ∧
             run = match tasks w !! ID t with
                   | Some _ =>
                       (Ok (length (heap w)),
                        {| heap := heap w ++ [merged t input; merged t input];
                           tasks := <[ID t := S (length (heap w))]> (tasks w);
                           uuid_calls := uuid_calls w |})
                   | None =>
                       (Err (NewNotFoundError "task not found"),
                        grown w (merged t input))
                   end)) as Hrun by (by apply Hrun).
  intros run.
  unfold UpdateTask, merged, update_error, title_error, status_error,
    due_error, grown.
  unfold bind at 1. unfold GetByID. rewrite Hid.
  unfold bind at 1, load. rewrite Hp.
  unfold new_task. cbn [heap tasks uuid_calls].
  destruct w as [h m n]. cbn [heap tasks uuid_calls] in *.
  destruct input as [ti de st du].
  cbn [uti_Title uti_Description uti_Status uti_DueDate].
  unfold IsZero, After.
  destruct ti as [ti|];
    [destruct (String.eqb_spec ti "") as [->|Hne]|].
  all: destruct de as [de|].
  all: destruct st as [st|]; [destruct (isValidStatus st) eqn:Hst|].
  all: destruct du as [du|];
    [destruct (Z.eqb_spec du 0) as [->|Hz];
     [|destruct (Z.ltb_spec now du) as [Hlt|Hge]]|].
  all: cbv [bind ret fail negb];
    repeat (rewrite poke_new_cell; cbv beta iota).
  all: try (intros ->; left; eexists _, _; split; reflexivity).
  all: rewrite Update_new_cell;
    cbn [ID set_Title set_Description set_Status set_DueDate
         Title Description Status DueDate default from_option];
    intros ->; right; split; [reflexivity|];
    destruct (m !! ID t); try done.
  all: by destruct t.
Qed.

Lemma update_error_message (input : UpdateTaskInput) (now : Time)
    (msg : string) :
  update_error input now = Some msg → msg ∈ validation_messages.
Proof.
  unfold update_error, title_error, status_error, due_error,
    validation_messages.
  repeat case_match; intros; simplify_eq; set_solver.
Qed.

(** X6. [UpdateTask] on a stored record checks, in this order: a supplied
    empty title gives the validation error "title is required"; else a
    supplied status outside the three gives "invalid status"; else a
    supplied zero due date gives "due_date is required"; else a supplied
    due date that is not strictly after the current time gives "due_date
    must be in the future".  The description is never a reason to
    fail. *)
Theorem UpdateTask_validation_order (w : World) (id : string)
    (input : UpdateTaskInput) (now : Time) (p : ptr) (t : Task) :
  tasks w !! id = Some p → heap w !! p = Some t →
  let fails (msg : string) : Prop :=
    ∃ w', UpdateTask id input now w
          = (Err {| ErrType := "validation"; Message := msg |}, w') in
  (uti_Title input = Some "" → fails "title is required") ∧
  (uti_Title input ≠ Some "" →
   ∀ s, uti_Status input = Some s → isValidStatus s = false →
        fails "invalid status") ∧
  (uti_Title input ≠ Some "" →
   (∀ s, uti_Status input = Some s → isValidStatus s = true) →
   uti_DueDate input = Some 0%Z → fails "due_date is required") ∧
  (uti_Title input ≠ Some "" →
   (∀ s, uti_Status input = Some s → isValidStatus s = true) →
   ∀ d, uti_DueDate input = Some d → d ≠ 0%Z → ¬ (now < d)%Z →
        fails "due_date must be in the future").
Proof.
  intros Hid Hp fails.
  assert (Hgo : ∀ msg, update_error input now = Some msg →
                       ∃ w', UpdateTask id input now w
                             = (Err (NewValidationError msg), w')).
  { intros msg Hmsg.
    destruct (UpdateTask_eq w id input now p t Hid Hp)
      as [(msg' & t' & Hmsg' & Hrun)|[Hnone _]]; [|congruence].
    assert (msg' = msg) as -> by congruence. by eexists. }
  assert (Htitle : uti_Title input ≠ Some "" → title_error input = None).
  { unfold title_error. destruct (uti_Title input) as [v|]; [|done].
    destruct (String.eqb_spec v ""); [by intros []; subst|done]. }
  assert (Hstatus : (∀ s, uti_Status input = Some s →
                          isValidStatus s = true) →
                    status_error input = None).
  { unfold status_error. destruct (uti_Status input) as [v|]; [|done].
    intros Hv. by rewrite (Hv v eq_refl). }
  unfold fails. repeat split.
  - intros Hti. apply (Hgo ErrTitleRequired).
    unfold update_error, title_error. by rewrite Hti.
  - intros Hti s Hs Hinv. apply (Hgo ErrStatusInvalid).
    unfold update_error. rewrite (Htitle Hti).
    unfold status_error. by rewrite Hs, Hinv.
  - intros Hti Hst Hdu. apply (Hgo ErrDueDateRequired).
    unfold update_error. rewrite (Htitle Hti), (Hstatus Hst).
    unfold due_error. by rewrite Hdu.
  - intros Hti Hst d Hdu Hz Hpast. apply (Hgo ErrDueDatePast).
    unfold update_error. rewrite (Htitle Hti), (Hstatus Hst).
    unfold due_error, IsZero, After. rewrite Hdu.
    destruct (Z.eqb_spec d 0); [done|].
    destruct (Z.ltb_spec now d); [lia|done].
Qed.

Lemma CreateTask_Err (w w' : World) (input : CreateTaskInput)
    (now : Time) (e : AppError) :
  CreateTask uuid_NewString input now w = (Err e, w') →
  w' = w ∧ ∃ msg, e = NewValidationError msg ∧ msg ∈ validation_messages.
Proof.
  unfold CreateTask, validation_messages.
  destruct (String.eqb (cti_Title input) "");
    [intros [= <- <-]; split; [done|]; eexists; split; [done|set_solver]|].
  destruct (IsZero (cti_DueDate input));
    [intros [= <- <-]; split; [done|]; eexists; split; [done|set_solver]|].
  destruct (negb _);
    [intros [= <- <-]; split; [done|]; eexists; split; [done|set_solver]|].
  destruct (cti_Status input) as [s|];
    [destruct (isValidStatus s); cbn [negb]|].
  2: { intros [= <- <-]. split; [done|].
       eexists; split; [done|set_solver]. }
  all: unfold bind, new_task, Create, ret;
    cbn [heap tasks uuid_calls]; by rewrite lookup_new_cell.
Qed.

Lemma GetByID_Err (w w' : World) (id : string) (e : AppError) :
  GetByID id w = (Err e, w') →
  e = NewNotFoundError "task not found" ∧ w' = w ∧ tasks w !! id = None.
Proof.
  unfold GetByID, bind, load, new_task, fail.
  destruct (tasks w !! id) as [p|]; [|by intros [= <- <-]].
  by destruct (heap w !! p).
Qed.

(** X7. The errors of the service: [CreateTask] fails only with a
    validation error carrying one of the four messages, and then leaves
    the state as it was; [GetTask] and [DeleteTask] fail only with the
    not-found error, when the identifier is not a key; [UpdateTask] fails
    only with the not-found error or with a validation error carrying one
    of the four messages; [ListTasks] never returns an error. *)
Theorem service_error_kinds (w w' : World) (e : AppError) :
  (∀ input now,
     CreateTask uuid_NewString input now w = (Err e, w') →
     IsValidation e = true ∧ Message e ∈ validation_messages ∧ w' = w) ∧
  (∀ id, GetTask id w = (Err e, w') →
         e = NewNotFoundError "task not found" ∧ tasks w !! id = None) ∧
  (∀ id, DeleteTask id w = (Err e, w') →
         e = NewNotFoundError "task not found" ∧ tasks w !! id = None) ∧
  (∀ id input now,
     UpdateTask id input now w = (Err e, w') →
     e = NewNotFoundError "task not found" ∨
     IsValidation e = true ∧ Message e ∈ validation_messages) ∧
  (∀ filter, ListTasks range sort_Slice filter w ≠ (Err e, w')).
Proof.
  split; [|split; [|split; [|split]]].
  - intros input now (-> & msg & -> & Hmsg)%CreateTask_Err. done.
  - intros id. unfold GetTask, bind, ret.
    destruct (GetByID id w) as [[c| |] w1] eqn:Hget; [done| |done].
    intros [= -> ->]. by apply GetByID_Err in Hget as (-> & _ & Hid).
  - intros id. unfold DeleteTask, Delete, fail.
    destruct (tasks w !! id); [done|]. by intros [= <- <-].
  - intros id input now Hrun.
    destruct (tasks w !! id) as [p|] eqn:Hid.
    2:{ left. unfold UpdateTask, bind, GetByID, fail in Hrun.
        rewrite Hid in Hrun. by injection Hrun as <- _. }
    destruct (heap w !! p) as [t|] eqn:Hp.
    2:{ cbv [UpdateTask bind GetByID load new_task] in Hrun.
        by rewrite Hid, Hp in Hrun. }
    destruct (UpdateTask_eq w id input now p t Hid Hp)
      as [(msg & t' & Hmsg & Heq)|[_ Heq]];
      rewrite Heq in Hrun.
    + injection Hrun as <- _. right. split; [done|].
      by eapply update_error_message.
    + destruct (tasks w !! ID t); [done|]. injection Hrun as <- _.
      by left.
  - intros filter. unfold ListTasks, ListAll, bind.
    by repeat case_match.
Qed.

(** *** Pages *)

Lemma int_wrap_le (z : Z) : (- 2 ^ 63 <= z)%Z → (int_wrap z <= z)%Z.
Proof.
  intros Hz. unfold int_wrap.
  pose proof (Z.mod_le (z + 2 ^ 63) (2 ^ 64) ltac:(lia) ltac:(lia)).
  lia.
Qed.

(** X9. A page never holds more tasks than the page size asked for, 10
    when the size given is zero or negative; this holds for every filter
    and every [sort.Slice], also when the page bounds wrap around. *)
Theorem ListTasks_page_length (tasks0 : list Task) (filter : TaskFilter)
    (out : list Task) :
  ListTasks_of sort_Slice tasks0 filter = Some out →
  (Z.of_nat (length out) <= size_of filter)%Z.
Proof.
  pose proof (size_of_pos filter) as Hsize.
  unfold ListTasks_of. cbv zeta. fold (page_of filter) (size_of filter).
  set (sorted := sort_Slice _ _).
  set (start := int_mul _ _).
  destruct (start >=? _)%Z; [intros [= <-]; cbn [length]; lia|].
  unfold slice.
  set (hi := if (int_add start (size_of filter) >? _)%Z then _ else _).
  destruct (Z.leb_spec 0 start) as [H0|]; [|done].
  destruct (Z.leb_spec start hi) as [H1|]; [|done].
  destruct (Z.leb_spec hi (Z.of_nat (length sorted))) as [H2|]; [|done].
  cbn [andb]. intros [= <-].
  rewrite length_take, length_drop.
  assert (hi <= start + size_of filter)%Z; [|lia].
  pose proof (int_wrap_le (start + size_of filter) ltac:(lia)) as Hw.
  unfold hi, int_add. destruct (_ >? _)%Z eqn:Hgt; [|done].
  apply Z.gtb_lt in Hgt. unfold int_add in Hgt. lia.
Qed.



(** X11. With a status in the filter, every task of the page has that
    status and is one of the tasks the store yielded; when no task has
    the status the page is empty, and an unknown status is not an
    error. *)
Theorem ListTasks_filter_status (tasks0 : list Task) (s : TaskStatus)
    (page size : Z) (out : list Task) :
  sort_Slice_contract sort_Slice →
  ListTasks_of sort_Slice tasks0
    {| tf_Status := Some s; tf_Page := page; tf_PageSize := size |}
  = Some out →
  Forall (λ t, Status t = s ∧ t ∈ tasks0) out ∧
  ((∀ t, t ∈ tasks0 → Status t ≠ s) → out = []).
Proof.
  intros Hsort Hout.
  destruct (ListTasks_of_sorted_run sort_Slice tasks0 _ out Hsort Hout)
    as (_ & pre & post & Hperm & _).
  cbn [tf_Status retain] in Hperm.
  assert (Hin : ∀ t, t ∈ out → Status t = s ∧ t ∈ tasks0).
  { intros t Ht.
    assert (t ∈ List.filter (λ t, String.eqb (Status t) s) tasks0) as Hf.
    { rewrite <- Hperm. set_solver. }
    apply list_elem_of_In, filter_In in Hf as [Hf Heq].
    by rewrite String.eqb_eq, <- list_elem_of_In in *. }
  split; [by apply Forall_forall|].
  intros Hnone. destruct out as [|t out]; [done|].
  destruct (Hin t) as [Hs Ht]; [by left|]. by destruct (Hnone t Ht).
Qed.


(** [CreateTask] in full: the first failing check decides the validation
    error and nothing changes; when none fails the task is allocated,
    given its identifier and stored. *)
Lemma CreateTask_eq (w : World) (input : CreateTaskInput) (now : Time) :
  CreateTask uuid_NewString input now w
  = match create_error input now with
    | Some msg => (Err (NewValidationError msg), w)
    | None =>
        (Ok (length (heap w)),
         {| heap := heap w ++
                    [created (uuid_NewString (uuid_calls w)) input];
            tasks := <[uuid_NewString (uuid_calls w) := length (heap w)]>
                       (tasks w);
            uuid_calls := S (uuid_calls w) |})
    end.
Proof.
  unfold CreateTask, create_error, created.
  destruct (String.eqb (cti_Title input) ""); [done|].
  destruct (IsZero (cti_DueDate input)); [done|].
  destruct (After (cti_DueDate input) now); cbn [negb]; [|done].
  destruct (cti_Status input) as [s|];
    [destruct (isValidStatus s); cbn [negb]; [|done]|].
  all: unfold bind, new_task, Create, ret;
    cbn [heap tasks uuid_calls default from_option];
    rewrite lookup_new_cell;
    by rewrite insert_app_r_alt, Nat.sub_diag by done.
Qed.


End Service.

(** ** internal/transport/http: TaskHandler *)

Section Transport.

Variable uuid_NewString : nat → string.
Variable range : gmap string ptr → list (string * ptr).
Variable sort_Slice : list Task → (Task → Task → bool) → list Task.

(** [time.Parse(time.RFC3339, s)]: the instant, or [None] for the
    error. *)
Variable time_Parse : string → option Time.

Definition TaskHandler_CreateTask (body : option createTaskRequest)
    (now : Time) : M Reply :=
  match body with
  | None => ret (fiber_NewError StatusBadRequest "invalid JSON body")
  | Some req =>
      let statusPtr :=
        if negb (String.eqb (ctr_Status req) "")
        then Some (ctr_Status req) else None in
      match (if negb (String.eqb (ctr_DueDate req) "")
             then time_Parse (ctr_DueDate req) else Some 0%Z) with
      | None =>
          ret (fiber_NewError StatusBadRequest
                 "invalid due_date format, expected RFC3339")
      | Some due =>
          r <~ try (CreateTask uuid_NewString {| cti_Title := ctr_Title req;
                                  cti_Description := ctr_Description req;
                                  cti_Status := statusPtr;
                                  cti_DueDate := due |} now) ;;
          match r with
          | inr err =>
              if IsValidation err
              then ret (fiber_NewError StatusBadRequest (Error err))
              else ret (fiber_NewError StatusInternalServerError
                          "internal error")
          | inl task => t <~ load task ;; ret (JSON_task StatusCreated t)
          end
      end
  end.


Definition TaskHandler_UpdateTask (id : string)
    (body : option updateTaskRequest) (now : Time) : M Reply :=
  match body with
  | None => ret (fiber_NewError StatusBadRequest "invalid JSON body")
  | Some req =>
      let statusPtr := utr_Status req in
      match (match utr_DueDate req with
             | Some s => if negb (String.eqb s "")
                         then match time_Parse s with
                              | Some d => Some (Some d)
                              | None => None
                              end
                         else Some None
             | None => Some None
             end) with
      | None =>
          ret (fiber_NewError StatusBadRequest
                 "invalid due_date format, expected RFC3339")
      | Some duePtr =>
          r <~ try (UpdateTask id {| uti_Title := utr_Title req;
                                     uti_Description := utr_Description req;
                                     uti_Status := statusPtr;
                                     uti_DueDate := duePtr |} now) ;;
          match r with
          | inr err =>
              if IsValidation err
              then ret (fiber_NewError StatusBadRequest (Error err))
              else if IsNotFound err
              then ret (fiber_NewError StatusNotFound "task not found")
              else ret (fiber_NewError StatusInternalServerError
                          "internal error")
          | inl task => t <~ load task ;; ret (JSON_task StatusOK t)
          end
      end
  end.


Definition TaskHandler_ListTasks (statusStr : string)
    (page page_size : option Z) : M Reply :=
  let page := QueryInt page 1 in
  let pageSize := QueryInt page_size 10 in
  let statusPtr :=
    if negb (String.eqb statusStr "") then Some statusStr else None in
  r <~ try (ListTasks range sort_Slice {| tf_Status := statusPtr; tf_Page := page;
                         tf_PageSize := pageSize |}) ;;
  match r with
  | inr err =>
      if IsValidation err
      then ret (fiber_NewError StatusBadRequest (Error err))
      else ret (fiber_NewError StatusInternalServerError "internal error")
  | inl tasks0 => ret (JSON_tasks StatusOK tasks0)
  end.




(** The due date a handler passes on: of POST /tasks (the zero time when
    the field is empty), of PUT /tasks/:id (nil when the field is absent
    or empty); [None] is the format error. *)
Definition create_due (req : createTaskRequest) : option Time :=
  if negb (String.eqb (ctr_DueDate req) "")
  then time_Parse (ctr_DueDate req) else Some 0%Z.

Definition update_due (req : updateTaskRequest) : option (option Time) :=
  match utr_DueDate req with
  | Some s => if negb (String.eqb s "")
              then match time_Parse s with
                   | Some d => Some (Some d)
                   | None => None
                   end
              else Some None
  | None => Some None
  end.

(** The filter the handler of GET /tasks builds. *)
Definition list_filter (statusStr : string) (page page_size : option Z)
  : TaskFilter :=
  {| tf_Status := if negb (String.eqb statusStr "")
                  then Some statusStr else None;
     tf_Page := QueryInt page 1;
     tf_PageSize := QueryInt page_size 10 |}.

(** The status codes of the replies that are not the internal error. *)
Definition served_codes : list Z :=
  [StatusOK; StatusCreated; StatusNoContent; StatusBadRequest;
   StatusNotFound].

(** *** The handlers, case by case *)

Lemma TaskHandler_CreateTask_eq (body : option createTaskRequest)
    (now : Time) (w : World) :
  TaskHandler_CreateTask body now w
  = match body with
    | None => (Ok (fiber_NewError StatusBadRequest "invalid JSON body"), w)
    | Some req =>
        match create_due req with
        | None =>
            (Ok (fiber_NewError StatusBadRequest
                   "invalid due_date format, expected RFC3339"), w)
        | Some due =>
            match create_error (create_input req due) now with
            | Some msg => (Ok (fiber_NewError StatusBadRequest msg), w)
            | None =>
                (Ok (JSON_task StatusCreated
                       (created (uuid_NewString (uuid_calls w))
                                (create_input req due))),
                 (CreateTask uuid_NewString (create_input req due) now w).2)
            end
        end
    end.
Proof.
  unfold TaskHandler_CreateTask, create_due.
  destruct body as [req|]; [|done].
  destruct (if negb _ then _ else _) as [due|]; [|done].
  unfold create_input, bind, try. rewrite !CreateTask_eq.
  destruct (create_error _ now) as [msg|]; [done|].
  unfold load, ret. cbn [heap snd]. by rewrite lookup_new_cell.
Qed.



Lemma TaskHandler_UpdateTask_early (id : string)
    (body : option updateTaskRequest) (now : Time) (w : World) :
  (body = None →
   TaskHandler_UpdateTask id body now w
   = (Ok (fiber_NewError StatusBadRequest "invalid JSON body"), w)) ∧
  (∀ req, body = Some req → update_due req = None →
   TaskHandler_UpdateTask id body now w
   = (Ok (fiber_NewError StatusBadRequest
            "invalid due_date format, expected RFC3339"), w)) ∧
  (∀ req duePtr, body = Some req → update_due req = Some duePtr →
   TaskHandler_UpdateTask id body now w
   = (r <~ try (UpdateTask id (update_input req duePtr) now) ;;
      match r with
      | inr err =>
          if IsValidation err
          then ret (fiber_NewError StatusBadRequest (Error err))
          else if IsNotFound err
          then ret (fiber_NewError StatusNotFound "task not found")
          else ret (fiber_NewError StatusInternalServerError
                      "internal error")
      | inl task => t <~ load task ;; ret (JSON_task StatusOK t)
      end) w).
Proof.
  unfold TaskHandler_UpdateTask, update_due, update_input.
  split; [by intros ->|]. split.
  - intros req -> Hdue. by rewrite Hdue.
  - intros req duePtr -> Hdue. by rewrite Hdue.
Qed.

Lemma TaskHandler_UpdateTask_missing (id : string)
    (req : updateTaskRequest) (duePtr : option Time) (now : Time)
    (w : World) :
  update_due req = Some duePtr → tasks w !! id = None →
  TaskHandler_UpdateTask id (Some req) now w
  = (Ok (fiber_NewError StatusNotFound "task not found"), w).
Proof.
  intros Hdue Hid.
  destruct (TaskHandler_UpdateTask_early id (Some req) now w)
    as (_ & _ & Hrun). rewrite (Hrun req duePtr eq_refl Hdue). clear Hrun.
  unfold bind, try, UpdateTask, bind, GetByID, fail. by rewrite Hid.
Qed.

Lemma TaskHandler_UpdateTask_stored (id : string)
    (req : updateTaskRequest) (duePtr : option Time) (now : Time)
    (w : World) (p : ptr) (t : Task) :
  update_due req = Some duePtr →
  tasks w !! id = Some p → heap w !! p = Some t →
  let input := update_input req duePtr in
  (∃ msg t',
     update_error input now = Some msg ∧
     TaskHandler_UpdateTask id (Some req) now w
     = (Ok (fiber_NewError StatusBadRequest msg), grown w t')) ∨
  (update_error input now = None ∧
   TaskHandler_UpdateTask id (Some req) now w
   = match tasks w !! ID t with
     | Some _ =>
         (Ok (JSON_task StatusOK (merged t input)),
          {| heap := heap w ++ [merged t input; merged t input];
             tasks := <[ID t := S (length (heap w))]> (tasks w);
             uuid_calls := uuid_calls w |})
     | None => (Ok (fiber_NewError StatusNotFound "task not found"),
                grown w (merged t input))
     end).
Proof.
  intros Hdue Hid Hp input.
  destruct (TaskHandler_UpdateTask_early id (Some req) now w)
    as (_ & _ & Hrun). rewrite (Hrun req duePtr eq_refl Hdue). clear Hrun.
  fold input. unfold bind, try.
  destruct (UpdateTask_eq w id input now p t Hid Hp)
    as [(msg & t' & Hmsg & ->)|[Hnone ->]].
  - left. by exists msg, t'.
  - right. split; [done|].
    destruct (tasks w !! ID t); [|done].
    unfold load, ret. cbn [heap snd].
    rewrite lookup_app_r by lia. by rewrite Nat.sub_diag.
Qed.

Lemma TaskHandler_ListTasks_run (statusStr : string)
    (page page_size : option Z) (w : World) :
  TaskHandler_ListTasks statusStr page page_size w
  = match ListAll range w with
    | (Ok tasks0, w') =>
        match ListTasks_of sort_Slice tasks0
                (list_filter statusStr page page_size) with
        | Some out => (Ok (JSON_tasks StatusOK out), w')
        | None => (Panic, w')
        end
    | (Err e, w') =>
        (Ok (if IsValidation e
             then fiber_NewError StatusBadRequest (Error e)
             else fiber_NewError StatusInternalServerError
                    "internal error"), w')
    | (Panic, w') => (Panic, w')
    end.
Proof.
  unfold TaskHandler_ListTasks, list_filter, bind, try, ListTasks, bind.
  cbv zeta.
  destruct (ListAll range w) as [[tasks0|e|] w'];
    [|by destruct (IsValidation e)|done].
  by destruct (ListTasks_of _ _ _).
Qed.


(** *** What the routes answer *)









Lemma ListTasks_of_same_window (tasks0 : list Task)
    (filter filter' : TaskFilter) :
  tf_Status filter = tf_Status filter' →
  page_of filter = page_of filter' → size_of filter = size_of filter' →
  ListTasks_of sort_Slice tasks0 filter
  = ListTasks_of sort_Slice tasks0 filter'.
Proof.
  intros Hs Hp Hn. unfold ListTasks_of. cbv zeta.
  fold (page_of filter) (size_of filter) (page_of filter')
    (size_of filter').
  by rewrite Hs, Hp, Hn.
Qed.


(** X14. The order in which POST /tasks refuses a body that is JSON: a
    due date that is given and is not RFC3339 is refused first, whatever
    the other fields; then an empty or absent title; then an absent or
    empty due date, or one that is the zero instant ("due_date is
    required"); then a due date that is not after the current time; then
    a status that is given and is not one of the three.  Each refusal is
    a 400 with the message, and leaves the state as it was. *)
Theorem POST_tasks_refusals (req : createTaskRequest) (now : Time)
    (w : World) :
  let refused (msg : string) : Prop :=
    TaskHandler_CreateTask (Some req) now w
    = (Ok (fiber_NewError StatusBadRequest msg), w) in
  (ctr_DueDate req ≠ "" → time_Parse (ctr_DueDate req) = None →
   refused "invalid due_date format, expected RFC3339") ∧
  (ctr_DueDate req = "" → ctr_Title req = "" →
   refused "title is required") ∧
  (ctr_DueDate req = "" → ctr_Title req ≠ "" →
   refused "due_date is required") ∧
  (∀ due, ctr_DueDate req ≠ "" →
     time_Parse (ctr_DueDate req) = Some due →
     (ctr_Title req = "" → refused "title is required") ∧
     (ctr_Title req ≠ "" → due = 0%Z → refused "due_date is required") ∧
     (ctr_Title req ≠ "" → due ≠ 0%Z → ¬ (now < due)%Z →
      refused "due_date must be in the future") ∧
     (ctr_Title req ≠ "" → due ≠ 0%Z → (now < due)%Z →
      ctr_Status req ≠ "" → isValidStatus (ctr_Status req) = false →
      refused "invalid status")).
Proof.
  intros refused. unfold refused.
  rewrite TaskHandler_CreateTask_eq. unfold create_due.
  split; [|split; [|split]].
  - intros Hne%String.eqb_neq ->. by rewrite Hne.
  - intros -> Htitle. cbn. unfold create_error. cbn [cti_Title create_input].
    by rewrite Htitle.
  - intros -> Htitle%String.eqb_neq. cbn. unfold create_error.
    cbn [cti_Title cti_DueDate create_input]. by rewrite Htitle.
  - intros due Hne%String.eqb_neq ->. rewrite Hne. cbn [negb].
    unfold create_error, IsZero, After.
    cbn [cti_Title cti_DueDate cti_Status create_input].
    split; [|split; [|split]].
    + by intros ->.
    + intros Htitle%String.eqb_neq ->. by rewrite Htitle.
    + intros Htitle%String.eqb_neq Hz%Z.eqb_neq Hpast%Z.ltb_nlt.
      by rewrite Htitle, Hz, Hpast.
    + intros Htitle%String.eqb_neq Hz%Z.eqb_neq Hfut%Z.ltb_lt
        Hs%String.eqb_neq Hbad.
      rewrite Htitle, Hz, Hfut, Hs. cbn [negb]. by rewrite Hbad.
Qed.


(** X16. What PUT /tasks/:id looks at first.  A due date that is given,
    not empty and not RFC3339 is refused with 400 before the identifier
    is looked up, so also for an identifier that is not stored.  For a
    body that passes this check, an identifier that is not a key is
    answered with 404 before any field is validated, so also when the
    title is empty.  A due date given as the empty string counts as
    absent.  For a stored record, a status given as the empty string is
    refused with 400 "invalid status" (unless an empty title is refused
    first), where POST would take it as absent. *)
Theorem PUT_tasks_precedence (id : string) (req : updateTaskRequest)
    (now : Time) (w : World) :
  (∀ s, utr_DueDate req = Some s → s ≠ "" → time_Parse s = None →
   TaskHandler_UpdateTask id (Some req) now w
   = (Ok (fiber_NewError StatusBadRequest
            "invalid due_date format, expected RFC3339"), w)) ∧
  (update_due req ≠ None → tasks w !! id = None →
   TaskHandler_UpdateTask id (Some req) now w
   = (Ok (fiber_NewError StatusNotFound "task not found"), w)) ∧
  (utr_DueDate req = Some "" →
   TaskHandler_UpdateTask id (Some req) now w
   = TaskHandler_UpdateTask id
       (Some {| utr_Title := utr_Title req;
                utr_Description := utr_Description req;
                utr_Status := utr_Status req;
                utr_DueDate := None |}) now w) ∧
  (∀ p t, tasks w !! id = Some p → heap w !! p = Some t →
   update_due req ≠ None → utr_Title req ≠ Some "" →
   utr_Status req = Some "" →
   ∃ w', TaskHandler_UpdateTask id (Some req) now w
         = (Ok (fiber_NewError StatusBadRequest "invalid status"), w')).
Proof.
  destruct (TaskHandler_UpdateTask_early id (Some req) now w)
    as (_ & Hfmt & _).
  split; [|split; [|split]].
  - intros s Hs Hne%String.eqb_neq Hparse. apply (Hfmt req); [done|].
    unfold update_due. by rewrite Hs, Hne, Hparse.
  - intros Hdue Hid. destruct (update_due req) as [duePtr|] eqn:Hd; [|done].
    by eapply TaskHandler_UpdateTask_missing.
  - intros Hs. unfold TaskHandler_UpdateTask. cbn [utr_Title
      utr_Description utr_Status utr_DueDate]. by rewrite Hs.
  - intros p t Hid Hp Hdue Htitle Hstatus.
    destruct (update_due req) as [duePtr|] eqn:Hd; [|done].
    destruct (TaskHandler_UpdateTask_stored id req duePtr now w p t
                Hd Hid Hp) as [(msg & t' & Hmsg & Hrun)|[Hnone Hrun]].
    + exists (grown w t'). rewrite Hrun. do 3 f_equal.
      revert Hmsg. unfold update_error, title_error, status_error.
      cbn [update_input uti_Title uti_Status]. rewrite Hstatus.
      destruct (utr_Title req) as [v|]; cbn.
      * destruct (String.eqb_spec v ""); [congruence|]. by intros [= <-].
      * by intros [= <-].
    + exfalso. revert Hnone.
      unfold update_error, title_error, status_error.
      cbn [update_input uti_Title uti_Status]. rewrite Hstatus.
      destruct (utr_Title req) as [v|]; cbn; [|done].
      by destruct (String.eqb v "").
Qed.



(** X19. The defaults of GET /tasks: a [page] parameter that is absent,
    not a number, zero or negative is page 1, and a [page_size] that is
    absent, not a number, zero or negative is 10; the answer is the one
    to [page=1] and [page_size=10], in every state. *)
Theorem GET_tasks_defaults (statusStr : string)
    (page page_size : option Z) (w : World) :
  (∀ p, page = Some p → (p <= 0)%Z) →
  (∀ n, page_size = Some n → (n <= 0)%Z) →
  TaskHandler_ListTasks statusStr page page_size w
  = TaskHandler_ListTasks statusStr (Some 1%Z) (Some 10%Z) w.
Proof.
  intros Hpage Hsize. rewrite !TaskHandler_ListTasks_run.
  destruct (ListAll range w) as [[tasks0| |] w']; [|done..].
  assert (ListTasks_of sort_Slice tasks0
            (list_filter statusStr page page_size)
          = ListTasks_of sort_Slice tasks0
              (list_filter statusStr (Some 1%Z) (Some 10%Z))) as Heq.
  { apply ListTasks_of_same_window; [done|..].
    - unfold page_of, list_filter, QueryInt. cbn [tf_Page default].
      destruct page as [p|]; cbn [default]; unfold id; [|done].
      specialize (Hpage p eq_refl).
      destruct (Z.leb_spec p 0); [done|lia].
    - unfold size_of, list_filter, QueryInt. cbn [tf_PageSize default].
      destruct page_size as [n|]; cbn [default]; unfold id; [|done].
      specialize (Hsize n eq_refl).
      destruct (Z.leb_spec n 0); [done|lia]. }
  by rewrite Heq.
Qed.


End Transport.

(** ** Two sorts that honour the contract of [sort.Slice] *)

Section InsertionSorts.

Context {A : Type} (less : A → A → bool).

Lemma insert_stable_perm (x : A) (l : list A) :
  insert_stable less x l ≡ₚ x :: l.
Proof.
  induction l as [|y l IH]; [done|]. cbn.
  destruct (less y x); [|done]. by rewrite IH, Permutation_swap.
Qed.


Lemma sort_stable_perm (l : list A) : sort_stable less l ≡ₚ l.
Proof.
  induction l as [|x l IH]; [done|]. cbn.
  fold (sort_stable less l). by rewrite insert_stable_perm, IH.
Qed.


Hypothesis less_ok : strict_weak less.

Lemma less_asym (a b : A) : less a b = true → less b a = false.
Proof.
  destruct less_ok as (Hirr & Htr & _). intros Hab.
  destruct (less b a) eqn:Hba; [|done].
  by rewrite <- (Hirr a), (Htr a b a Hab Hba).
Qed.

Lemma insert_stable_sorted (x : A) (l : list A) :
  sorted_by less l → sorted_by less (insert_stable less x l).
Proof.
  destruct less_ok as (_ & _ & Hneg). unfold sorted_by.
  induction 1 as [|y l Hl IH Hy]; cbn; [by repeat constructor|].
  destruct (less y x) eqn:Hyx.
  - constructor; [done|]. rewrite insert_stable_perm.
    constructor; [by apply less_asym|done].
  - constructor; [by constructor|]. constructor; [done|].
    eapply Forall_impl; [exact Hy|]. intros z Hz. cbn in *.
    by apply (Hneg z y x).
Qed.


Lemma sort_stable_sorted (l : list A) : sorted_by less (sort_stable less l).
Proof.
  induction l as [|x l IH]; [constructor|]. by apply insert_stable_sorted.
Qed.


End InsertionSorts.

Lemma sort_stable_contract :
  sort_Slice_contract (λ l less, sort_stable less l).
Proof.
  intros l less. split; [apply sort_stable_perm|].
  intros Hless. by apply sort_stable_sorted.
Qed.


(** ** With a stable sort the ordering of the specification holds *)

(** "[a] stands before [b] in [l]", by positions and as a sublist. *)
Lemma before_sublist {A : Type} (l : list A) (a b : A) :
  (∃ i j, i < j ∧ l !! i = Some a ∧ l !! j = Some b) ↔
  [a; b] `sublist_of` l.
Proof.
  split.
  - intros (i & j & Hlt & Hi & Hj). revert i j Hlt Hi Hj.
    induction l as [|x l IH]; intros i j Hlt Hi Hj; [done|].
    destruct j as [|j]; [lia|]. destruct i as [|i]; cbn in Hi, Hj.
    + injection Hi as ->. apply sublist_skip, singleton_sublist_l.
      by eapply list_elem_of_lookup_2.
    + apply sublist_cons. apply (IH i j); [lia|done..].
  - induction l as [|x l IH]; [by intros ?%sublist_nil_r|].
    intros [Hl|(k & [= -> <-] & Hb)]%sublist_cons_r.
    + destruct (IH Hl) as (i & j & Hlt & Hi & Hj).
      exists (S i), (S j). repeat split; [lia|done..].
    + apply singleton_sublist_l, list_elem_of_lookup in Hb as [j Hj].
      exists 0, (S j). repeat split; [lia|done..].
Qed.

Lemma List_filter_sublist {A : Type} (P : A → bool) (l : list A) :
  List.filter P l `sublist_of` l.
Proof.
  induction l as [|x l IH]; cbn; [constructor|].
  destruct (P x); by constructor.
Qed.

(** Where a pair of the result of an insertion comes from: both from the
    list, or the inserted element followed by an element of the list, or
    an element strictly below the inserted one followed by it. *)
Lemma insert_stable_pair {A : Type} (less : A → A → bool) (x : A)
    (s : list A) (a b : A) :
  [a; b] `sublist_of` insert_stable less x s →
  [a; b] `sublist_of` s ∨ (a = x ∧ b ∈ s) ∨ (b = x ∧ less a x = true).
Proof.
  induction s as [|y s IH]; cbn.
  { intros Hl%sublist_length. cbn in Hl. lia. }
  destruct (less y x) eqn:Hyx.
  - intros [Hl|(k & [= -> <-] & Hb)]%sublist_cons_r.
    + destruct (IH Hl) as [Hs|[[-> Hb]|[-> Ha]]].
      * left. by apply sublist_cons.
      * right. left. split; [done|]. by right.
      * right. by right.
    + apply singleton_sublist_l in Hb.
      assert (b ∈ x :: s) as Hin by (by rewrite <- insert_stable_perm).
      apply elem_of_cons in Hin as [->|Hin].
      * right. by right.
      * left. by apply sublist_skip, singleton_sublist_l.
  - intros [Hl|(k & [= -> <-] & Hb)]%sublist_cons_r; [by left|].
    right. left. split; [done|]. by apply singleton_sublist_l.
Qed.

Lemma sort_stable_keeps_ties {A : Type} (less : A → A → bool)
    (l : list A) (a b : A) :
  [a; b] `sublist_of` sort_stable less l → less a b = false →
  [a; b] `sublist_of` l.
Proof.
  intros Hl Hab. induction l as [|x l IH].
  { by apply sublist_nil_r in Hl. }
  cbn in Hl. fold (sort_stable less l) in Hl.
  apply insert_stable_pair in Hl as [Hs|[[-> Hb]|[-> Ha]]].
  - by apply sublist_cons, IH.
  - apply sublist_skip, singleton_sublist_l.
    by rewrite <- (sort_stable_perm less l).
  - congruence.
Qed.

(** The ordering the specification describes is what [ListTasks] would do
    with a stable sort in the place of [sort.Slice]. *)
Lemma ListTasks_stable_with_sort_stable :
  ListTasks_stable (λ l less, sort_stable less l).
Proof.
  intros tasks0 filter out Hout. split.
  { by apply (ListTasks_of_sorted_run _ tasks0 filter out
                sort_stable_contract). }
  apply ListTasks_of_is_window in Hout as (i & n & ->).
  intros i1 j1 a b Hlt Ha Hb Htie.
  apply before_sublist.
  assert ([a; b] `sublist_of`
            sort_stable less_DueDate (retain (tf_Status filter) tasks0))
    as Hsorted.
  { etrans; [apply before_sublist; by exists i1, j1|].
    etrans; [apply sublist_take|apply sublist_drop]. }
  apply sort_stable_keeps_ties in Hsorted.
  - etrans; [exact Hsorted|]. unfold retain.
    destruct (tf_Status filter); [apply List_filter_sublist|done].
  - unfold less_DueDate, Before. rewrite Htie. apply Z.ltb_irrefl.
Qed.

(** ** Concrete runs *)

Lemma demo_uuid_never_repeats : uuid_never_repeats demo_uuid.
Proof.
  intros m n. unfold demo_uuid. cbn [String.append].
  intros [= Heq]. exact (pretty_nat_inj m n Heq).
Qed.

Lemma demo_uuid_never_empty : uuid_never_empty demo_uuid.
Proof. intros n. done. Qed.


(** C1, the counterexample (the scenario of [TestRepository_Isolation]):
    a task titled "Original" is created, the caller then sets the title
    of its own object to "Modified", and [GetByID] hands out "Modified". *)
Lemma Create_keeps_live_reference : ¬ Create_isolates demo_uuid.
Proof.
  intros Hiso.
  specialize (Hiso report_world 0 report (set_Title "Modified") _ _
                   eq_refl eq_refl eq_refl).
  vm_compute in Hiso. discriminate Hiso.
Qed.

(** The same scenario, step by step. *)
Example isolation_test :
  ∃ w1 w2,
    Create demo_uuid 0 report_world = (Ok (), w1) ∧
    Title <$> GetByID_value "t0" w1 = Some "Original" ∧
    poke 0 (set_Title "Modified") w1 = (Ok (), w2) ∧
    Title <$> GetByID_value "t0" w2 = Some "Modified".
Proof. by eexists _, _. Qed.


(** ** The properties at concrete inputs *)

(** C9 on [report]: created as "t0" and read back. *)
Lemma Create_GetByID_roundtrip_witness :
  heap report_world !! 0 = Some report ∧
  ∃ w1 t1 copy w2 got,
    Create demo_uuid 0 report_world = (Ok (), w1) ∧
    heap w1 !! 0 = Some t1 ∧
    ID t1 = demo_uuid (uuid_calls report_world) ∧
    GetByID (ID t1) w1 = (Ok copy, w2) ∧
    heap w2 !! copy = Some got ∧
    ID got = ID t1 ∧
    Title got = Title report ∧
    Description got = Description report ∧
    Status got = Status report ∧
    DueDate got = DueDate report.
Proof.
  split; [reflexivity|].
  apply (Create_GetByID_roundtrip demo_uuid report_world 0 report).
  reflexivity.
Defined.

(** C7 on the identifier "t7", which [filed_world] does not hold. *)
Lemma missing_id_NotFound_witness :
  tasks filed_world !! "t7" = None ∧
  GetByID "t7" filed_world
  = (Err (NewNotFoundError "task not found"), filed_world) ∧
  UpdateTask "t7" progress_update 0%Z filed_world
  = (Err (NewNotFoundError "task not found"), filed_world) ∧
  DeleteTask "t7" filed_world
  = (Err (NewNotFoundError "task not found"), filed_world).
Proof.
  assert (Hid : tasks filed_world !! "t7" = None) by reflexivity.
  split; [exact Hid|].
  destruct (missing_id_NotFound filed_world "t7" Hid)
    as (_ & _ & Hget & _ & _ & _ & Hupd & Hdel).
  split; [exact Hget|]. split; [apply Hupd|exact Hdel].
Defined.

(** C4 on an input without a title and on an acceptable one. *)
Lemma CreateTask_validation_witness :
  CreateTask demo_uuid untitled_input 0%Z empty_world
  = (Err {| ErrType := "validation"; Message := "title is required" |},
     empty_world) ∧
  ∃ task w',
    CreateTask demo_uuid report_input 0%Z empty_world = (Ok task, w') ∧
    stored w' "t0"
    = Some {| ID := "t0"; Title := "Report"; Description := "";
              Status := "PENDING"; DueDate := 86400%Z |}.
Proof.
  split.
  - apply (CreateTask_validation demo_uuid empty_world untitled_input 0%Z).
    reflexivity.
  - destruct (CreateTask_validation demo_uuid empty_world report_input 0%Z)
      as (_ & _ & _ & _ & Hok).
    destruct (Hok ltac:(discriminate) ltac:(discriminate) eq_refl
                  "PENDING" (or_introl (conj eq_refl eq_refl)))
      as (task & w' & Hrun & _ & Hst).
    exists task, w'. split; [exact Hrun|exact Hst].
Defined.

(** C1 on [report]: the assignment made after [Create] is read back. *)
Lemma live_reference_only_after_Create_witness :
  heap report_world !! 0 = Some report ∧
  ∃ w1 w2 copy w3,
    Create demo_uuid 0 report_world = (Ok (), w1) ∧
    poke 0 (set_Title "Modified") w1 = (Ok (), w2) ∧
    GetByID "t0" w2 = (Ok copy, w3) ∧
    heap w3 !! copy = Some (set_Title "Modified" (set_ID "t0" report)).
Proof.
  split; [reflexivity|].
  destruct (live_reference_only_after_Create demo_uuid report_world
              (set_Title "Modified")) as (Hlive & _ & _ & _).
  exact (Hlive 0 report eq_refl).
Defined.

(** C8 on "t0": a new status and an empty description, the title and the
    due date kept. *)
Lemma UpdateTask_partial_merge_witness :
  tasks filed_world !! "t0" = Some 0 ∧
  heap filed_world !! 0 = Some filed ∧
  ID filed = "t0" ∧
  update_valid progress_update 0%Z ∧
  ∃ task w1 copy w2,
    UpdateTask "t0" progress_update 0%Z filed_world = (Ok task, w1) ∧
    GetByID "t0" w1 = (Ok copy, w2) ∧
    heap w2 !! copy
    = Some {| ID := "t0"; Title := "Original"; Description := "";
              Status := "IN_PROGRESS"; DueDate := 86400%Z |}.
Proof.
  assert (Hvalid : update_valid progress_update 0%Z).
  { split; [discriminate|]. split.
    - intros s [= <-]. reflexivity.
    - intros d [=]. }
  do 3 (split; [reflexivity|]). split; [exact Hvalid|].
  destruct (UpdateTask_partial_merge filed_world "t0" progress_update 0%Z
              0 filed eq_refl eq_refl eq_refl Hvalid)
    as (task & w1 & copy & w2 & got & Hrun & _ & Hget & Hcopy & -> & _).
  exists task, w1, copy, w2.
  split; [exact Hrun|]. split; [exact Hget|exact Hcopy].
Defined.

(** C10 on "t0": the status is rejected after the title was written to
    the working copy; the stored record still has the old title. *)
Lemma UpdateTask_error_leaves_store_witness :
  UpdateTask "t0" bogus_update 0%Z filed_world
  = (Err (NewValidationError "invalid status"),
     {| heap := [filed; set_Title "New" filed]; tasks := {[ "t0" := 0 ]};
        uuid_calls := 1 |}) ∧
  stored {| heap := [filed; set_Title "New" filed];
            tasks := {[ "t0" := 0 ]}; uuid_calls := 1 |} "t0"
  = Some filed.
Proof.
  assert (Hrun : UpdateTask "t0" bogus_update 0%Z filed_world
                 = (Err (NewValidationError "invalid status"),
                    {| heap := [filed; set_Title "New" filed];
                       tasks := {[ "t0" := 0 ]}; uuid_calls := 1 |}))
    by reflexivity.
  split; [exact Hrun|].
  destruct (UpdateTask_error_leaves_store _ _ _ _ _ _ Hrun)
    as (_ & _ & Hstored).
  apply Hstored. reflexivity.
Defined.

(** C6 on three calls, two of them on the same object. *)
Lemma Create_identifiers_distinct_witness :
  uuid_never_repeats demo_uuid ∧
  (∀ task, task ∈ [0; 1; 0] → is_Some (heap two_tasks_world !! task)) ∧
  ∃ ids w',
    Create_all demo_uuid [0; 1; 0] two_tasks_world = (ids, w') ∧
    ids = ["t0"; "t1"; "t2"] ∧
    NoDup ids.
Proof.
  assert (Hps : ∀ task, task ∈ [0; 1; 0] →
                        is_Some (heap two_tasks_world !! task)).
  { apply Forall_forall. repeat constructor; by eexists. }
  split; [exact demo_uuid_never_repeats|]. split; [exact Hps|].
  destruct (Create_identifiers_distinct demo_uuid [0; 1; 0] two_tasks_world
              demo_uuid_never_repeats Hps)
    as (_ & ids & w' & Hrun & _ & Hids & Hnodup & _).
  exists ids, w'. split; [exact Hrun|]. split; [exact Hids|exact Hnodup].
Defined.

(** C5 on a run of five calls, the last of which fails. *)
Lemma service_keeps_store_ok_witness :
  uuid_never_empty demo_uuid ∧
  store_ok (after_calls demo_uuid map_to_list (λ l less, sort_stable less l)
                        demo_calls empty_world) ∧
  stored (after_calls demo_uuid map_to_list (λ l less, sort_stable less l)
                      demo_calls empty_world) "t0"
  = Some {| ID := "t0"; Title := "Report"; Description := "";
            Status := "IN_PROGRESS"; DueDate := 86400%Z |}.
Proof.
  split; [exact demo_uuid_never_empty|]. split; [|reflexivity].
  apply (service_keeps_store_ok demo_uuid map_to_list
           (λ l less, sort_stable less l) demo_calls).
  exact demo_uuid_never_empty.
Defined.


(** C3 on a store of one task. *)
Lemma ListTasks_of_page_overflow_witness :
  sort_Slice_contract (λ l less, sort_stable less l) ∧
  [filed] ≠ [] ∧
  (Z.of_nat (length [filed]) <= 4294967296)%Z ∧
  ListTasks_of (λ l less, sort_stable less l) [filed]
               {| tf_Status := None; tf_Page := 4294967297;
                  tf_PageSize := 4294967296 |} = Some [filed] ∧
  ListTasks_of (λ l less, sort_stable less l) [filed]
               {| tf_Status := None; tf_Page := 3;
                  tf_PageSize := 9223372036854775807 |} = None.
Proof.
  assert (Hne : [filed] ≠ []) by discriminate.
  assert (Hlen : (Z.of_nat (length [filed]) <= 4294967296)%Z)
    by (cbn; lia).
  split; [exact sort_stable_contract|]. split; [exact Hne|].
  split; [exact Hlen|].
  destruct (ListTasks_of_page_overflow (λ l less, sort_stable less l)
              [filed] sort_stable_contract Hne Hlen)
    as (Hall & _ & Hpanic).
  split; [exact Hall|exact Hpanic].
Defined.

(** ** The further properties at concrete inputs *)

(** A parser that knows two instants: the zero instant and the day after
    it. *)
Definition demo_time_Parse (s : string) : option Time :=
  if String.eqb s "0001-01-02T00:00:00Z" then Some 86400%Z
  else if String.eqb s "0001-01-01T00:00:00Z" then Some 0%Z
  else None.

(** [filed] with a new title, as a caller prepares it for [Update]. *)
Definition retitled_world : World :=
  {| heap := [filed; set_Title "New" filed]; tasks := {[ "t0" := 0 ]};
     uuid_calls := 1 |}.


Definition undated_request : createTaskRequest :=
  {| ctr_Title := "Report"; ctr_Description := ""; ctr_Status := "";
     ctr_DueDate := "" |}.


(** No title and a due date that is not a date. *)
Definition garbled_request : updateTaskRequest :=
  {| utr_Title := Some ""; utr_Description := None;
     utr_Status := None; utr_DueDate := Some "tomorrow" |}.


Lemma map_to_list_range : range_contract map_to_list.
Proof. intros m. reflexivity. Qed.



(** X1 on "t0", the only record of [filed_world]. *)
Lemma Delete_removes_witness :
  tasks filed_world !! "t0" = Some 0 ∧
  ∃ w1,
    DeleteTask "t0" filed_world = (Ok (), w1) ∧
    GetByID "t0" w1 = (Err (NewNotFoundError "task not found"), w1).
Proof.
  split; [reflexivity|].
  destruct (Delete_removes filed_world "t0" 0 eq_refl)
    as (w1 & _ & Hdel & _ & Hget & _).
  exists w1. split; [exact Hdel|exact Hget].
Defined.

(** X2 on [filed_world], read in the order of [map_to_list]. *)
Lemma ListAll_lists_store_witness :
  range_contract map_to_list ∧
  (∀ id p, tasks filed_world !! id = Some p →
           is_Some (heap filed_world !! p)) ∧
  ∃ tasks0,
    ListAll map_to_list filed_world = (Ok tasks0, filed_world) ∧
    length tasks0 = size (tasks filed_world) ∧
    filed ∈ tasks0.
Proof.
  assert (Hptr : ∀ id p, tasks filed_world !! id = Some p →
                         is_Some (heap filed_world !! p)).
  { intros id p Hp. cbn [tasks filed_world] in Hp.
    apply lookup_singleton_Some in Hp as [_ <-]. by eexists. }
  split; [exact map_to_list_range|]. split; [exact Hptr|].
  destruct (ListAll_lists_store map_to_list filed_world map_to_list_range
              Hptr) as (tasks0 & Hrun & Hlen & Hin).
  exists tasks0. split; [exact Hrun|]. split; [exact Hlen|].
  apply Hin. exists "t0". reflexivity.
Defined.

(** X3 on the retitled copy of "t0". *)
Lemma Update_replaces_witness :
  heap retitled_world !! 1 = Some (set_Title "New" filed) ∧
  is_Some (tasks retitled_world !! ID (set_Title "New" filed)) ∧
  ∃ w1 copy w2,
    Update 1 retitled_world = (Ok (), w1) ∧
    GetByID "t0" w1 = (Ok copy, w2) ∧
    heap w2 !! copy = Some (set_Title "New" filed).
Proof.
  assert (Hkey : is_Some (tasks retitled_world
                            !! ID (set_Title "New" filed)))
    by (by eexists).
  split; [reflexivity|]. split; [exact Hkey|].
  destruct (Update_replaces retitled_world 1 (set_Title "New" filed)
              eq_refl Hkey) as (w1 & copy & w2 & Hrun & Hget & Hcopy & _).
  exists w1, copy, w2.
  split; [exact Hrun|]. split; [exact Hget|exact Hcopy].
Defined.

(** X4 on [report], created twice. *)
Lemma Create_twice_same_object_witness :
  uuid_never_repeats demo_uuid ∧
  heap report_world !! 0 = Some report ∧
  ∃ w1 w2 copy w3,
    Create demo_uuid 0 report_world = (Ok (), w1) ∧
    Create demo_uuid 0 w1 = (Ok (), w2) ∧
    tasks w2 !! "t0" = Some 0 ∧
    tasks w2 !! "t1" = Some 0 ∧
    GetByID "t0" w2 = (Ok copy, w3) ∧
    heap w3 !! copy = Some (set_ID "t1" report).
Proof.
  split; [exact demo_uuid_never_repeats|]. split; [reflexivity|].
  destruct (Create_twice_same_object demo_uuid report_world 0 report
              demo_uuid_never_repeats eq_refl)
    as (w1 & w2 & copy & w3 & H1 & H2 & Hid1 & Hid2 & Hget & Hcopy & _).
  exists w1, w2, copy, w3.
  split; [exact H1|]. split; [exact H2|]. split; [exact Hid1|].
  split; [exact Hid2|]. split; [exact Hget|exact Hcopy].
Defined.

(** X5 on two reads of "t0", the first copy then given a title of its
    own. *)
Lemma GetByID_copies_independent_witness :
  GetByID "t0" filed_world
  = (Ok 1, {| heap := [filed; filed]; tasks := {[ "t0" := 0 ]};
              uuid_calls := 1 |}) ∧
  ∃ c2 w2 w3 t,
    GetByID "t0" {| heap := [filed; filed]; tasks := {[ "t0" := 0 ]};
                    uuid_calls := 1 |} = (Ok c2, w2) ∧
    1 ≠ c2 ∧
    poke 1 (set_Title "Mine") w2 = (Ok (), w3) ∧
    heap w3 !! 1 = Some (set_Title "Mine" t) ∧
    heap w3 !! c2 = Some t.
Proof.
  assert (Hrun : GetByID "t0" filed_world
                 = (Ok 1, {| heap := [filed; filed];
                             tasks := {[ "t0" := 0 ]};
                             uuid_calls := 1 |})) by reflexivity.
  split; [exact Hrun|].
  destruct (GetByID_copies_independent _ _ _ _ (set_Title "Mine") Hrun)
    as (c2 & w2 & w3 & t & Hget & Hne & _ & _ & _ & Hpoke & H1 & H2 & _).
  exists c2, w2, w3, t.
  split; [exact Hget|]. split; [exact Hne|]. split; [exact Hpoke|].
  split; [exact H1|exact H2].
Defined.

(** X6 on "t0": a good title with a status that does not exist. *)
Lemma UpdateTask_validation_order_witness :
  tasks filed_world !! "t0" = Some 0 ∧
  heap filed_world !! 0 = Some filed ∧
  ∃ w',
    UpdateTask "t0" bogus_update 0%Z filed_world
    = (Err {| ErrType := "validation"; Message := "invalid status" |}, w').
Proof.
  split; [reflexivity|]. split; [reflexivity|].
  destruct (UpdateTask_validation_order filed_world "t0" bogus_update 0%Z
              0 filed eq_refl eq_refl) as (_ & Hstatus & _).
  apply (Hstatus ltac:(discriminate) "BOGUS"); reflexivity.
Defined.

(** X7 on the input without a title. *)
Lemma service_error_kinds_witness :
  CreateTask demo_uuid untitled_input 0%Z empty_world
  = (Err (NewValidationError "title is required"), empty_world) ∧
  IsValidation (NewValidationError "title is required") = true ∧
  Message (NewValidationError "title is required") ∈ validation_messages.
Proof.
  assert (Hrun : CreateTask demo_uuid untitled_input 0%Z empty_world
                 = (Err (NewValidationError "title is required"),
                    empty_world)) by reflexivity.
  split; [exact Hrun|].
  destruct (service_error_kinds demo_uuid map_to_list
              (λ l less, sort_stable less l) empty_world empty_world
              (NewValidationError "title is required")) as (Hcreate & _).
  destruct (Hcreate untitled_input 0%Z Hrun) as (Hkind & Hmsg & _).
  split; [exact Hkind|exact Hmsg].
Defined.

(** X9 on the last page of five of the thirteen tasks, which holds
    three. *)
Lemma ListTasks_page_length_witness :
  ∃ out,
    ListTasks_of (λ l less, sort_stable less l) thirteen_tasks
                 {| tf_Status := None; tf_Page := 3; tf_PageSize := 5 |}
    = Some out ∧
    length out = 3 ∧
    (Z.of_nat (length out) <= 5)%Z.
Proof.
  eexists. split; [reflexivity|]. split; [reflexivity|].
  apply (ListTasks_page_length (λ l less, sort_stable less l)
           thirteen_tasks
           {| tf_Status := None; tf_Page := 3; tf_PageSize := 5 |}).
  reflexivity.
Defined.


(** X11 on the pending ones of the thirteen tasks. *)
Lemma ListTasks_filter_status_witness :
  sort_Slice_contract (λ l less, sort_stable less l) ∧
  ∃ out,
    ListTasks_of (λ l less, sort_stable less l) thirteen_tasks
                 {| tf_Status := Some "PENDING"; tf_Page := 2;
                    tf_PageSize := 5 |} = Some out ∧
    length out = 5 ∧
    Forall (λ t, Status t = "PENDING" ∧ t ∈ thirteen_tasks) out.
Proof.
  split; [exact sort_stable_contract|].
  eexists. split; [reflexivity|]. split; [reflexivity|].
  apply (ListTasks_filter_status (λ l less, sort_stable less l)
           thirteen_tasks "PENDING" 2 5 _ sort_stable_contract eq_refl).
Defined.


(** X14 on a body without a due date. *)
Lemma POST_tasks_refusals_witness :
  TaskHandler_CreateTask demo_uuid demo_time_Parse (Some undated_request)
                         0%Z empty_world
  = (Ok (fiber_NewError StatusBadRequest "due_date is required"),
     empty_world).
Proof.
  destruct (POST_tasks_refusals demo_uuid demo_time_Parse undated_request
              0%Z empty_world) as (_ & _ & Hdue & _).
  apply Hdue; [reflexivity|discriminate].
Defined.


(** X16 on an identifier that is not stored, with a due date that is not
    a date and an empty title. *)
Lemma PUT_tasks_precedence_witness :
  TaskHandler_UpdateTask demo_time_Parse "t7" (Some garbled_request) 2%Z
                         filed_world
  = (Ok (fiber_NewError StatusBadRequest
           "invalid due_date format, expected RFC3339"), filed_world).
Proof.
  destruct (PUT_tasks_precedence demo_time_Parse "t7" garbled_request 2%Z
              filed_world) as (Hfmt & _).
  apply (Hfmt "tomorrow"); [reflexivity|discriminate|reflexivity].
Defined.



(** X19 on [page=0] and [page_size=-5]. *)
Lemma GET_tasks_defaults_witness :
  (∀ p, Some 0%Z = Some p → (p <= 0)%Z) ∧
  (∀ n, Some (-5)%Z = Some n → (n <= 0)%Z) ∧
  TaskHandler_ListTasks map_to_list (λ l less, sort_stable less l) ""
                        (Some 0%Z) (Some (-5)%Z) filed_world
  = TaskHandler_ListTasks map_to_list (λ l less, sort_stable less l) ""
                          (Some 1%Z) (Some 10%Z) filed_world.
Proof.
  assert (Hpage : ∀ p, Some 0%Z = Some p → (p <= 0)%Z)
    by (intros p [= <-]; lia).
  assert (Hsize : ∀ n, Some (-5)%Z = Some n → (n <= 0)%Z)
    by (intros n [= <-]; lia).
  split; [exact Hpage|]. split; [exact Hsize|].
  exact (GET_tasks_defaults map_to_list (λ l less, sort_stable less l) ""
           (Some 0%Z) (Some (-5)%Z) filed_world Hpage Hsize).
Defined.

